(** * Automated GitHub PR agent: diff parser and review orchestrator

    A shallow embedding of [app/diff_parser.py] (class [DiffParser]) and of
    [app/agents.py] (classes [BaseAgent] and [AgentOrchestrator]), with the
    properties of the specification stated and settled against it.

    Conventions of the embedding.
    - A Python [str] is a [string]; its characters are the code points
      0..255.  On that alphabet the regular-expression class [\d] is exactly
      the ten characters 0..9, and [str.isspace] is the set given by
      [PyStr.isspace].
    - A Python [int] is a [Z].
    - Objects that the parser mutates after having stored them somewhere
      (the [Hunk] instances) live in a store and are named by their
      location; everything else is a value.
    - A call that can raise returns a [result]. *)

From Stdlib Require Import ZArith Ascii String DecimalString DecimalZ.
From Stdlib Require Import Sorting.Sorted Sorting.Permutation.
From stdpp Require Import base list strings gmap.

Local Open Scope Z_scope.

(** ** Exceptions and results *)

Inductive exn : Type :=
| ValueError (msg : string)        (* a subclass of [Exception] *)
| OtherException (name : string)   (* any other subclass of [Exception] *)
| CancelledError.                  (* a [BaseException] that is no [Exception] *)

Inductive result (A : Type) : Type :=
| Ok (a : A)
| Raise (e : exn).
Arguments Ok {A} a.
Arguments Raise {A} e.

Definition bind {A B} (r : result A) (k : A -> result B) : result B :=
  match r with
  | Ok a => k a
  | Raise e => Raise e
  end.

Notation "'let!' x ':=' r 'in' k" := (bind r (fun x => k))
  (at level 10, x name, r at level 100, k at level 200, only parsing).

(** [for x in xs: st = body(st, x)], where the body may raise. *)
Fixpoint for_each {S X} (body : S -> X -> result S) (xs : list X) (st : S)
  : result S :=
  match xs with
  | [] => Ok st
  | x :: xs' => let! st' := body st x in for_each body xs' st'
  end.

(** ** The string operations of Python that the source uses *)

Module PyStr.

(** [line.startswith(p)] *)
Fixpoint startswith (line p : string) {struct p} : bool :=
  match p, line with
  | EmptyString, _ => true
  | String _ _, EmptyString => false
  | String a p', String b line' => Ascii.eqb a b && startswith line' p'
  end.

(** [s[n:]] *)
Fixpoint slice_from (n : nat) (s : string) {struct s} : string :=
  match n, s with
  | O, _ => s
  | S _, EmptyString => EmptyString
  | S n', String _ s' => slice_from n' s'
  end.

(** [s[:n]] *)
Fixpoint slice_to (n : nat) (s : string) {struct s} : string :=
  match n, s with
  | O, _ => EmptyString
  | S _, EmptyString => EmptyString
  | S n', String c s' => String c (slice_to n' s')
  end.

(** [c.isspace()] on the code points 0..255. *)
Definition isspace (c : ascii) : bool :=
  let n := nat_of_ascii c in
  ((9 <=? n) && (n <=? 13) || (28 <=? n) && (n <=? 32)
   || (n =? 133) || (n =? 160))%nat.

Fixpoint lstrip (s : string) : string :=
  match s with
  | EmptyString => EmptyString
  | String c s' => if isspace c then lstrip s' else s
  end.

Fixpoint rstrip (s : string) : string :=
  match s with
  | EmptyString => EmptyString
  | String c s' =>
      match rstrip s' with
      | EmptyString => if isspace c then EmptyString else String c EmptyString
      | r => String c r
      end
  end.

(** [s.strip()] *)
Definition strip (s : string) : string := rstrip (lstrip s).

(** [s.split(sep)] for a one-character separator: never empty. *)
Fixpoint split (sep : ascii) (s : string) : list string :=
  match s with
  | EmptyString => [EmptyString]
  | String c s' =>
      if Ascii.eqb c sep then EmptyString :: split sep s'
      else match split sep s' with
           | [] => [String c EmptyString]
           | w :: ws => String c w :: ws
           end
  end.

(** [str(n)] for an [int]. *)
Definition str_of_int (n : Z) : string := NilZero.string_of_int (Z.to_int n).

(** The value of a non-empty run of decimal digits, most significant
    first, as [int] computes it. *)
Definition digit_value (c : ascii) : Z :=
  match Ascii.is_nat c with Some d => Z.of_nat d | None => 0 end.

Fixpoint digits_value (acc : Z) (s : string) : Z :=
  match s with
  | EmptyString => acc
  | String c s' => digits_value (10 * acc + digit_value c) s'
  end.

(** [int(s)] on a run of decimal digits.  CPython refuses to convert a
    decimal string of more than [sys.get_int_max_str_digits()] digits and
    raises [ValueError]; the limit is 4300 unless the interpreter is
    configured otherwise, and 0 switches the check off. *)
Definition int_of_digits (max_str_digits : nat) (s : string) : result Z :=
  if ((0 <? max_str_digits) && (max_str_digits <? String.length s))%nat
  then Raise (ValueError "Exceeds the limit for integer string conversion")
  else Ok (digits_value 0 s).

Definition default_max_str_digits : nat := 4300.

End PyStr.

(** ** The regular expression of the hunk header

    [re.search(r'@@ -(\d+),(\d+) \+(\d+),(\d+) @@', line)]: the leftmost
    position at which the pattern matches.  Every [\d+] is followed in the
    pattern by a character that is no digit, so the greedy group can only
    succeed on the maximal run of digits: backtracking to a shorter run
    leaves a digit where the pattern wants [,] or a space. *)

Module HunkRe.

Definition is_digit (c : ascii) : bool :=
  match Ascii.is_nat c with Some _ => true | None => false end.

(** The maximal run of digits at the head of [s], and what follows. *)
Fixpoint span_digits (s : string) : string * string :=
  match s with
  | EmptyString => (EmptyString, EmptyString)
  | String c s' =>
      if is_digit c
      then let '(d, r) := span_digits s' in (String c d, r)
      else (EmptyString, s)
  end.

(** [\d+]: at least one digit. *)
Definition digits1 (s : string) : option (string * string) :=
  match span_digits s with
  | (EmptyString, _) => None
  | (d, r) => Some (d, r)
  end.

(** A literal piece of the pattern. *)
Fixpoint lit (p s : string) : option string :=
  match p, s with
  | EmptyString, _ => Some s
  | String _ _, EmptyString => None
  | String a p', String b s' => if Ascii.eqb a b then lit p' s' else None
  end.

(** The pattern anchored at the head of [s]; the four groups. *)
Definition match_here (s : string) : option (string * string * string * string) :=
  r0 ← lit "@@ -" s;
  '(a, r1) ← digits1 r0;
  r2 ← lit "," r1;
  '(b, r3) ← digits1 r2;
  r4 ← lit " +" r3;
  '(c, r5) ← digits1 r4;
  r6 ← lit "," r5;
  '(d, r7) ← digits1 r6;
  _ ← lit " @@" r7;
  Some (a, b, c, d).

(** [re.search]: try every start position from the left. *)
Fixpoint search (s : string) : option (string * string * string * string) :=
  match match_here s with
  | Some g => Some g
  | None =>
      match s with
      | EmptyString => None
      | String _ s' => search s'
      end
  end.

End HunkRe.

(** ** The data model of [app/diff_parser.py] *)

Record Change : Type := mkChange {
  type : string;       (* 'add', 'remove' or 'context' *)
  line_num : Z;
  content : string
}.

Record Hunk : Type := mkHunk {
  old_start : Z;
  old_count : Z;
  new_start : Z;
  new_count : Z;
  changes : list Change
}.

Record FileChange : Type := mkFileChange {
  path : string;
  hunks : list Hunk
}.

Record ParsedDiff : Type := mkParsedDiff {
  files : list FileChange
}.

(** ** [DiffParser.parse] *)

Module DiffParser.

(** The location of a [Hunk] object in the store. *)
Abbreviation loc := nat.

(** A [FileChange] object while the parser runs: its [hunks] list holds
    references to [Hunk] objects, which may still be written to.  The
    file objects themselves are values: one is put into [files] only when
    the variable [current_file] is reset or the function returns, so it is
    never written to after it has been stored. *)
Record FileObj : Type := mkFileObj {
  fo_path : string;
  fo_hunks : list loc
}.

(** The local variables of [parse], and the store of [Hunk] objects. *)
Record state : Type := mkState {
  st_files : list FileObj;
  current_file : option FileObj;
  current_hunk : option loc;
  new_line_num : Z;
  store : list Hunk
}.

Definition init : state :=
  {| st_files := []; current_file := None; current_hunk := None;
     new_line_num := 0; store := [] |}.

(** [current_file.hunks.append(current_hunk)] *)
Definition append_hunk (f : FileObj) (r : loc) : FileObj :=
  {| fo_path := fo_path f; fo_hunks := fo_hunks f ++ [r] |}.

(** [current_hunk.changes.append(c)], on the object at [r]. *)
Definition append_change (c : Change) (h : Hunk) : Hunk :=
  {| old_start := old_start h; old_count := old_count h;
     new_start := new_start h; new_count := new_count h;
     changes := changes h ++ [c] |}.

Definition push_change (st : state) (r : loc) (c : Change) (bump : Z) : state :=
  {| st_files := st_files st; current_file := current_file st;
     current_hunk := current_hunk st;
     new_line_num := new_line_num st + bump;
     store := alter (append_change c) r (store st) |}.

(** The branch [line.startswith('diff --git')]. *)
Definition on_file_marker (st : state) : state :=
  {| st_files := match current_file st with
                 | Some f => st_files st ++ [f]
                 | None => st_files st
                 end;
     current_file := None; current_hunk := None;
     new_line_num := new_line_num st; store := store st |}.

(** The branch [line.startswith('+++')]. *)
Definition on_path_line (st : state) (line : string) : state :=
  let path := PyStr.strip (PyStr.slice_from 6 line) in
  if String.eqb path "/dev/null" then st
  else {| st_files := st_files st;
          current_file := Some {| fo_path := path; fo_hunks := [] |};
          current_hunk := current_hunk st;
          new_line_num := new_line_num st; store := store st |}.

(** The first statement of the branch [line.startswith('@@')]:
    [if current_hunk and current_file: current_file.hunks.append(current_hunk)]. *)
Definition commit_hunk (st : state) : state :=
  match current_hunk st, current_file st with
  | Some r, Some f =>
      {| st_files := st_files st; current_file := Some (append_hunk f r);
         current_hunk := current_hunk st;
         new_line_num := new_line_num st; store := store st |}
  | _, _ => st
  end.

(** The rest of that branch: on a match, the four groups go through
    [int], a fresh [Hunk] becomes current and the cursor is set. *)
Definition open_hunk (max_str_digits : nat) (st : state) (line : string)
  : result state :=
  match HunkRe.search line with
  | Some (a, b, c, d) =>
      let! o_start := PyStr.int_of_digits max_str_digits a in
      let! o_count := PyStr.int_of_digits max_str_digits b in
      let! n_start := PyStr.int_of_digits max_str_digits c in
      let! n_count := PyStr.int_of_digits max_str_digits d in
      Ok {| st_files := st_files st; current_file := current_file st;
            current_hunk := Some (length (store st));
            new_line_num := n_start;
            store := store st ++ [mkHunk o_start o_count n_start n_count []] |}
  | None => Ok st
  end.

(** The last branch, [elif current_hunk and current_file]: which
    [Change] a line appends at the cursor, and by how much the cursor
    moves; [None] for a line of no kind. *)
Definition change_of (cursor : Z) (line : string) : option (Change * Z) :=
  if PyStr.startswith line "+" && negb (PyStr.startswith line "+++") then
    Some (mkChange "add" cursor (PyStr.slice_from 1 line), 1)
  else if PyStr.startswith line "-" && negb (PyStr.startswith line "---") then
    Some (mkChange "remove" cursor (PyStr.slice_from 1 line), 0)
  else if PyStr.startswith line " " then
    Some (mkChange "context" cursor (PyStr.slice_from 1 line), 1)
  else None.

Definition on_change_line (st : state) (line : string) : state :=
  match current_hunk st, current_file st with
  | Some r, Some _ =>
      match change_of (new_line_num st) line with
      | Some (c, bump) => push_change st r c bump
      | None => st
      end
  | _, _ => st
  end.

(** The body of [for line in lines]. *)
Definition step (max_str_digits : nat) (st : state) (line : string)
  : result state :=
  if PyStr.startswith line "diff --git" then Ok (on_file_marker st)
  else if PyStr.startswith line "+++" then Ok (on_path_line st line)
  else if PyStr.startswith line "@@" then
    open_hunk max_str_digits (commit_hunk st) line
  else Ok (on_change_line st line).

(** The statements after the loop ([# Add last file]): the files list
    that [ParsedDiff] receives. *)
Definition finish (st : state) : list FileObj :=
  match current_file st with
  | Some f =>
      st_files st ++ [match current_hunk st with
                      | Some r => append_hunk f r
                      | None => f
                      end]
  | None => st_files st
  end.

(** The loop, from the initial values of the local variables. *)
Definition run (max_str_digits : nat) (diff_text : string) : result state :=
  for_each (step max_str_digits) (PyStr.split "010" diff_text) init.

(** Reading the object graph: every reference is replaced by the
    object it names. *)
Definition read_file (sto : list Hunk) (f : FileObj) : FileChange :=
  {| path := fo_path f; hunks := omap (fun r => sto !! r) (fo_hunks f) |}.

Definition read (sto : list Hunk) (fs : list FileObj) : ParsedDiff :=
  {| files := map (read_file sto) fs |}.

(** [DiffParser().parse(diff_text)] under the interpreter's limit on
    integer strings. *)
Definition parse_with (max_str_digits : nat) (diff_text : string)
  : result ParsedDiff :=
  let! st := run max_str_digits diff_text in
  Ok (read (store st) (finish st)).

(** ... and under the default limit. *)
Definition parse (diff_text : string) : result ParsedDiff :=
  parse_with PyStr.default_max_str_digits diff_text.

End DiffParser.

(** ** Inputs used below

    [text ls] is ['\n'.join(ls)]: the lines of a diff, separated by the
    newline character. *)

Fixpoint text (ls : list string) : string :=
  match ls with
  | [] => EmptyString
  | [l] => l
  | l :: ls' => l +:+ String "010" (text ls')
  end.

(** Scenario A of the specification, character for character. *)
Definition scenario_A : string :=
  text ["@@ -10,5 +10,7 @@"; " line1"; "+added1"; "-removed1"; " context"; ""].

(** The same hunk inside a file section. *)
Definition scenario_A_in_file : string :=
  text ["+++ b/f.py"; "@@ -10,5 +10,7 @@"; " line1"; "+added1"; "-removed1";
        " context"; ""].

(** Two files with one hunk each, as [git diff] prints them. *)
Definition two_files : string :=
  text ["diff --git a/f.py b/f.py"; "--- a/f.py"; "+++ b/f.py";
        "@@ -1,2 +1,2 @@"; " a"; "+b";
        "diff --git a/g.py b/g.py"; "--- a/g.py"; "+++ b/g.py";
        "@@ -3,2 +3,2 @@"; "+c"; ""].

(** A deleted file, as [git diff] prints it. *)
Definition deleted_file : string :=
  text ["diff --git a/old.txt b/old.txt"; "deleted file mode 100644";
        "--- a/old.txt"; "+++ /dev/null"; "@@ -1,2 +0,0 @@"; "-a"; "-b"; ""].

(** A second hunk whose header leaves the counts out, which [git diff]
    does for a hunk of one line; it fails the four-integer pattern. *)
Definition short_header : string :=
  text ["diff --git a/f.py b/f.py"; "--- a/f.py"; "+++ b/f.py";
        "@@ -1,2 +1,2 @@"; " a"; "+b"; "@@ -9 +9 @@"; "-x"; "+y"; ""].

(** A header whose last integer has 4301 digits. *)
Fixpoint ones (n : nat) : string :=
  match n with
  | O => EmptyString
  | S n' => String "1" (ones n')
  end.

Definition long_header : string :=
  "@@ -1,1 +1," +:+ ones 4301 +:+ " @@".

(** The object graph the loop leaves behind on [two_files], just before
    and just after its second [diff --git] line. *)
Definition before_second_file : result DiffParser.state :=
  for_each (DiffParser.step PyStr.default_max_str_digits)
    (take 6 (PyStr.split "010" two_files)) DiffParser.init.

Definition after_second_file : result DiffParser.state :=
  for_each (DiffParser.step PyStr.default_max_str_digits)
    (take 7 (PyStr.split "010" two_files)) DiffParser.init.


(** ** The line cursor, read off a finished hunk *)

(** A change that stands for a line of the new file. *)
Definition new_side (c : Change) : Prop := type c = "add" ∨ type c = "context".

Definition removed (c : Change) : Prop := type c = "remove".

Global Instance new_side_dec c : Decision (new_side c).
Proof. unfold new_side. apply _. Defined.

Global Instance removed_dec c : Decision (removed c).
Proof. unfold removed. apply _. Defined.

(** How far the cursor has moved over the changes [cs]. *)
Definition new_lines (cs : list Change) : Z :=
  Z.of_nat (length (filter new_side cs)).

(** [numbered cur cs]: the changes [cs] are what the last branch of the
    loop appends, in order, when it starts with the cursor at [cur]: every
    change carries the cursor of its moment, an added or context change
    moves the cursor by one and a removed change leaves it. *)
Fixpoint numbered (cur : Z) (cs : list Change) : Prop :=
  match cs with
  | [] => True
  | c :: cs' =>
      line_num c = cur ∧
      ((new_side c ∧ numbered (cur + 1) cs') ∨ (removed c ∧ numbered cur cs'))
  end.

(** What the loop maintains: every [Hunk] object is numbered from its
    [new_start], and the cursor belongs to the current hunk. *)
Definition cursor_inv (st : DiffParser.state) : Prop :=
  (∀ r h, DiffParser.store st !! r = Some h →
          numbered (new_start h) (changes h)) ∧
  (∀ r h, DiffParser.current_hunk st = Some r →
          DiffParser.store st !! r = Some h →
          DiffParser.new_line_num st = new_start h + new_lines (changes h)).

(** [int] returns on a string that is within the limit [m] of the
    interpreter ([0]: no limit). *)
Definition convertible (m : nat) (s : string) : Prop :=
  m = 0%nat ∨ (String.length s ≤ m)%nat.

(** The local variables and the store after the lines [+++ b/f.py],
    [@@ -1,2 +1,2 @@], [ a], [+b]: a file and a hunk are current. *)
Definition hunk_ab : Hunk :=
  mkHunk 1 2 1 2 [mkChange "context" 1 "a"; mkChange "add" 2 "b"].

Definition state_ab : DiffParser.state :=
  {| DiffParser.st_files := [];
     DiffParser.current_file :=
       Some {| DiffParser.fo_path := "f.py"; DiffParser.fo_hunks := [] |};
     DiffParser.current_hunk := Some 0%nat;
     DiffParser.new_line_num := 3;
     DiffParser.store := [hunk_ab] |}.

(** The [Change]s that the last branch of the loop appends over the
    lines [ls] when it starts with the cursor at [cur]; a line of no kind
    appends nothing and leaves the cursor. *)
Fixpoint changes_of (cur : Z) (ls : list string) : list Change :=
  match ls with
  | [] => []
  | l :: ls' =>
      match DiffParser.change_of cur l with
      | Some (c, bump) => c :: changes_of (cur + bump) ls'
      | None => changes_of cur ls'
      end
  end.

(** A [Hunk] object after the changes [cs] have been appended to it. *)
Definition with_changes (h : Hunk) (cs : list Change) : Hunk :=
  {| old_start := old_start h; old_count := old_count h;
     new_start := new_start h; new_count := new_count h;
     changes := changes h ++ cs |}.

(** A header without counts between two hunks of one file: two change
    lines follow it, then a header that matches and the lines of its
    hunk. *)
Definition bad_then_good : string :=
  text ["diff --git a/f.py b/f.py"; "--- a/f.py"; "+++ b/f.py";
        "@@ -1,2 +1,2 @@"; " a"; "+b"; "@@ -9 +9 @@"; "-x"; "+y";
        "@@ -20,2 +20,3 @@"; " z"; "+w"; ""].

(** The hunk of Scenario A as the parser builds it. *)
Definition hunk_A : Hunk :=
  mkHunk 10 5 10 7
    [ mkChange "context" 10 "line1"; mkChange "add" 11 "added1";
      mkChange "remove" 12 "removed1"; mkChange "context" 12 "context" ].

(** No reference of the object graph dangles. *)
Definition refs_valid (st : DiffParser.state) : Prop :=
  (∀ f r, f ∈ DiffParser.st_files st → r ∈ DiffParser.fo_hunks f →
          (r < length (DiffParser.store st))%nat) ∧
  (∀ f r, DiffParser.current_file st = Some f → r ∈ DiffParser.fo_hunks f →
          (r < length (DiffParser.store st))%nat) ∧
  (∀ r, DiffParser.current_hunk st = Some r →
        (r < length (DiffParser.store st))%nat).

(** ** The data model of [app/agents.py]

    [Comment] objects and the dictionaries that [review] builds from them
    have the same six entries; both are this record.  The fields have the
    types of the annotations of [Comment.__init__]. *)

Record Comment : Type := mkComment {
  file : string;
  line : Z;
  severity : string;
  category : string;
  message : string;
  suggestion : string
}.

Module Agents.

(** *** [BaseAgent.analyze]

    Only the control flow around the [try] matters here.  [fmt] stands for
    the two statements before the [try] ([_format_diff] and
    [prompt.format]) and [body] for the block inside it: the call of the
    model, the decoding of its answer and the construction of the
    comments. *)

(** [except Exception] catches what derives from [Exception]. *)
Definition is_Exception (e : exn) : bool :=
  match e with
  | CancelledError => false
  | ValueError _ | OtherException _ => true
  end.

Definition analyze (fmt : result string) (body : string → result (list Comment))
  : result (list Comment) :=
  let! prompt_text := fmt in
  match body prompt_text with
  | Ok comments => Ok comments
  | Raise e => if is_Exception e then Ok [] else Raise e
  end.

(** *** [asyncio.gather] over the tasks, without [return_exceptions]

    When every task returns, the results in the order of the tasks; when
    a task raises, its exception reaches the caller.  Which task's, if
    several raise, depends on the schedule, so this is a relation. *)
Inductive gather {A : Type} : list (result A) → result (list A) → Prop :=
| gather_returns (vs : list A) : gather (map Ok vs) (Ok vs)
| gather_raises (ts : list (result A)) (e : exn) :
    Raise e ∈ ts → gather ts (Raise e).

(** *** [AgentOrchestrator.review], after the [await] *)

(** [f"{comment.file}:{comment.line}:{comment.message[:50]}"] *)
Definition dedup_key (c : Comment) : string :=
  file c +:+ ":" +:+ PyStr.str_of_int (line c) +:+ ":" +:+
  PyStr.slice_to 50 (message c).

(** The body of the inner loop, on the variables [all_comments] and [seen]. *)
Definition visit (acc : list Comment * gset string) (comment : Comment)
  : list Comment * gset string :=
  let key := dedup_key comment in
  if decide (key ∈ acc.2) then acc
  else (acc.1 ++ [comment], {[key]} ∪ acc.2).

(** [# Flatten and deduplicate]: the two nested loops. *)
Definition merge (results : list (list Comment)) : list Comment :=
  (foldl (λ acc agent_comments, foldl visit acc agent_comments) ([], ∅) results).1.

(** [severity_order.get(x["severity"], 3)] *)
Definition severity_rank (s : string) : Z :=
  if String.eqb s "high" then 0
  else if String.eqb s "medium" then 1
  else if String.eqb s "low" then 2
  else 3.

(** [list.sort(key=...)] is a stable ascending sort, and a stable sort
    has one possible result; this is the insertion sort that computes it,
    each element going in front of the first element of the sorted rest
    whose key is not smaller. *)
Fixpoint insert_by {A} (key : A → Z) (x : A) (l : list A) : list A :=
  match l with
  | [] => [x]
  | y :: l' => if key x <=? key y then x :: l else y :: insert_by key x l'
  end.

Definition sort_by {A} (key : A → Z) (l : list A) : list A :=
  foldr (insert_by key) [] l.

Definition rank (c : Comment) : Z := severity_rank (severity c).

(** The statements of [review] after the [await], on the lists that the
    agents returned. *)
Definition review_results (results : list (list Comment)) : list Comment :=
  sort_by rank (merge results).

(** [review], on the outcomes of the [analyze] calls of the agents in
    the order of registration. *)
Definition review (tasks : list (result (list Comment)))
    (res : result (list Comment)) : Prop :=
  ∃ g, gather tasks g ∧ res = (let! results := g in Ok (review_results results)).

End Agents.

(** ** The merge step as the specification words it *)

(** The triple that the specification takes for the dedup key. *)
Definition triple (c : Comment) : string * Z * string :=
  (file c, line c, PyStr.slice_to 50 (message c)).

(** Keep a comment when no comment before it in the list had its key
    (nor is the key among those seen before the list). *)
Fixpoint first_by {K} `{EqDecision K} (key : Comment → K) (seen : list K)
    (l : list Comment) : list Comment :=
  match l with
  | [] => []
  | c :: l' =>
      if decide (key c ∈ seen) then first_by key seen l'
      else c :: first_by key (key c :: seen) l'
  end.

(** The merge step in the words of the specification: the first
    occurrence of every triple, in the order of the list. *)
Definition first_occurrences (l : list Comment) : list Comment :=
  first_by triple [] l.

(** A string without the separator of the key. *)
Fixpoint colon_free (s : string) : bool :=
  match s with
  | EmptyString => true
  | String a s' => negb (Ascii.eqb a ":") && colon_free s'
  end.

(** Scenario B: the same finding from two agents. *)
Definition null_check (cat : string) : Comment :=
  mkComment "a.py" 5 "medium" cat "Issue with null check" "".

(** Scenario C: severities low, high, medium, high. *)
Definition sev (n : Z) (s : string) : Comment :=
  mkComment "a.py" n s "logic" "m" "".

(** Two comments with different triples and one key. *)
Definition colon_in_file : Comment := mkComment "a.py:5" 7 "high" "logic" "x" "".
Definition colon_in_message : Comment := mkComment "a.py" 5 "low" "security" "7:x" "".

(** The order of a list by a key. *)
Definition key_le {A} (key : A → Z) (a b : A) : Prop := key a ≤ key b.

(** Two agents for the examples: one whose [prompt.format] raises, before
    the [try] of [analyze], and one whose model answer cannot be decoded,
    inside it. *)
Definition raises_before_try : result (list Comment) :=
  Agents.analyze (Raise (OtherException "KeyError")) (λ _, Ok []).

Definition raises_inside_try : result (list Comment) :=
  Agents.analyze (Ok "prompt") (λ _, Raise (ValueError "JSONDecodeError")).

(** * The rest of the code: the client's URL handling, the agent's
      handling of its diff and of the model's answer, and the summary *)

(** ** Substrings *)

Module PySub.

(** [sub in s] *)
Fixpoint contains (sub s : string) {struct s} : bool :=
  PyStr.startswith s sub ||
  match s with
  | EmptyString => false
  | String _ s' => contains sub s'
  end.

(** [s.split(sep)] for a non-empty separator: the occurrences are found
    from the left and do not overlap.  [skip] counts the characters of a
    found occurrence that are still to be passed over; the head of the
    result is the piece being read. *)
Fixpoint split_from (sep : string) (skip : nat) (s : string) {struct s}
  : list string :=
  match s with
  | EmptyString => [EmptyString]
  | String c s' =>
      match skip with
      | S k => split_from sep k s'
      | O =>
          if PyStr.startswith s sep
          then EmptyString :: split_from sep (String.length sep - 1) s'
          else match split_from sep 0 s' with
               | [] => [String c EmptyString]
               | w :: ws => String c w :: ws
               end
      end
  end.

Definition split (sep s : string) : list string := split_from sep 0 s.

(** [l[i]] *)
Definition item {A} (l : list A) (i : nat) : result A :=
  match l !! i with
  | Some x => Ok x
  | None => Raise (OtherException "IndexError")
  end.

End PySub.

(** ** [GitHubClient]

    [re.search(r"github\.com/([^/]+)/([^/]+)/pull/(\d+)", pr_url)].  Each
    [[^/]+] is followed in the pattern by [/] and can therefore only
    succeed on the maximal run of characters that are no slash; the final
    [\d+] is greedy and nothing follows it. *)

Module PrUrlRe.

Definition is_slash (c : ascii) : bool := Ascii.eqb c "/".

(** The maximal run of characters other than [/] at the head of [s]. *)
Fixpoint span_segment (s : string) : string * string :=
  match s with
  | EmptyString => (EmptyString, EmptyString)
  | String c s' =>
      if is_slash c then (EmptyString, s)
      else let '(d, r) := span_segment s' in (String c d, r)
  end.

(** [[^/]+] *)
Definition segment1 (s : string) : option (string * string) :=
  match span_segment s with
  | (EmptyString, _) => None
  | (d, r) => Some (d, r)
  end.

Definition match_here (s : string) : option (string * string * string) :=
  r0 ← HunkRe.lit "github.com/" s;
  '(owner, r1) ← segment1 r0;
  r2 ← HunkRe.lit "/" r1;
  '(repo, r3) ← segment1 r2;
  r4 ← HunkRe.lit "/pull/" r3;
  '(pr_number, _) ← HunkRe.digits1 r4;
  Some (owner, repo, pr_number).

Fixpoint search (s : string) : option (string * string * string) :=
  match match_here s with
  | Some g => Some g
  | None =>
      match s with
      | EmptyString => None
      | String _ s' => search s'
      end
  end.

End PrUrlRe.

Module GitHubClient.

(** [__init__]: the headers of every request, from the value of
    [GITHUB_TOKEN] ([None] when the variable is not set; the empty string
    is falsy as well). *)
Definition headers (token : option string) : gmap string string :=
  match token with
  | Some (String c t) =>
      <["Authorization" := "token " +:+ String c t]>
        {["Accept" := "application/vnd.github.v3.diff"]}
  | _ => {["Accept" := "application/vnd.github.v3.diff"]}
  end.

Definition api_url (owner repo pr_number : string) : string :=
  "https://api.github.com/repos/" +:+ owner +:+ "/" +:+ repo +:+ "/pulls/" +:+
  pr_number.

(** [fetch_pr_diff].  [get url headers] stands for the request with its
    [raise_for_status] and for [response.text]. *)
Definition fetch_pr_diff (token : option string)
    (get : string → gmap string string → result string) (pr_url : string)
  : result string :=
  match PrUrlRe.search pr_url with
  | None => Raise (ValueError "Invalid GitHub PR URL")
  | Some (owner, repo, pr_number) =>
      get (api_url owner repo pr_number) (headers token)
  end.

End GitHubClient.

(** ** [BaseAgent]: the diff it shows, the answer it reads *)

(** A decoded JSON value, as [json.loads] returns it; the items of an
    object are those of the [dict], one for each key. *)
#[warnings="-register-all"]
Inductive json : Type :=
| JNull
| JBool (b : bool)
| JInt (n : Z)
| JFloat (repr : string)
| JStr (s : string)
| JList (l : list json)
| JDict (items : list (string * json)).

(** A [Comment] object as [analyze] builds it: the constructor checks
    nothing, so the fields taken from the answer hold whatever JSON value
    was there; [category] is the agent's own string. *)
Record RawComment : Type := mkRawComment {
  raw_file : json;
  raw_line : json;
  raw_severity : json;
  raw_category : string;
  raw_message : json;
  raw_suggestion : json
}.

Module Analyze.






(** [# Clean markdown if present] *)
Definition clean_markdown (content : string) : result string :=
  if PySub.contains "```json" content then
    let! rest := PySub.item (PySub.split "```json" content) 1 in
    PySub.item (PySub.split "```" rest) 0
  else if PySub.contains "```" content then
    let! rest := PySub.item (PySub.split "```" content) 1 in
    PySub.item (PySub.split "```" rest) 0
  else Ok content.

(** [c.get(key, default)]: only a [dict] has the method. *)
Fixpoint dict_get (items : list (string * json)) (key : string) (default : json)
  : json :=
  match items with
  | [] => default
  | (k, v) :: items' => if String.eqb k key then v else dict_get items' key default
  end.

Definition get (c : json) (key : string) (default : json) : result json :=
  match c with
  | JDict items => Ok (dict_get items key default)
  | _ => Raise (OtherException "AttributeError")
  end.

(** What [for c in comments_data] goes through: the elements of a list,
    the keys of a dict, the characters of a string; nothing else can be
    iterated. *)
Definition iterate (comments_data : json) : result (list json) :=
  match comments_data with
  | JList l => Ok l
  | JDict items => Ok (map (λ kv, JStr kv.1) items)
  | JStr s => Ok (map (λ c, JStr (String c EmptyString)) (list_ascii_of_string s))
  | _ => Raise (OtherException "TypeError")
  end.

(** The body of that loop: [comments.append(Comment(...))]. *)
Definition append_comment (category : string) (comments : list RawComment)
    (c : json) : result (list RawComment) :=
  let! f := get c "file" (JStr "unknown") in
  let! l := get c "line" (JInt 0) in
  let! s := get c "severity" (JStr "low") in
  let! m := get c "message" (JStr "") in
  let! g := get c "suggestion" (JStr "") in
  Ok (comments ++ [mkRawComment f l s category m g]).

(** The [try] block of [analyze], from the answer of the model on:
    [response] is the outcome of [llm.ainvoke] with the text of
    [response.content], [loads] is [json.loads]. *)
Definition try_block (category : string) (response : result string)
    (loads : string → result json) : result (list RawComment) :=
  let! content := response in
  let! content := clean_markdown content in
  let! comments_data := loads (PyStr.strip content) in
  let! items := iterate comments_data in
  for_each (append_comment category) items [].

(** ... and its [except Exception]. *)
Definition read_answer (category : string) (response : result string)
    (loads : string → result json) : result (list RawComment) :=
  match try_block category response loads with
  | Ok comments => Ok comments
  | Raise e => if Agents.is_Exception e then Ok [] else Raise e
  end.

End Analyze.

(** ** [main.py]: the summary of a response *)

Module Main.

Record Summary : Type := mkSummary {
  total_comments : nat;
  high : nat;
  medium : nat;
  low : nat
}.

(** [sum(1 for c in comments if c.severity == s)] *)
Definition count_severity (s : string) (comments : list Comment) : nat :=
  length (filter (λ c, severity c = s) comments).

Definition summary (comments : list Comment) : Summary :=
  {| total_comments := length comments;
     high := count_severity "high" comments;
     medium := count_severity "medium" comments;
     low := count_severity "low" comments |}.

End Main.

(** ** Notions for the properties of the parser *)

(** The lines that open a file: the second branch of the loop, with a
    path other than the null device. *)
Definition opens_file (line : string) : bool :=
  negb (PyStr.startswith line "diff --git") && PyStr.startswith line "+++" &&
  negb (String.eqb (PyStr.strip (PyStr.slice_from 6 line)) "/dev/null").

Definition opened_paths (lines : list string) : list string :=
  map (λ line, PyStr.strip (PyStr.slice_from 6 line))
      (List.filter opens_file lines).

(** The lines that change the variables of the loop even when no file
    is current. *)
Definition is_marker (line : string) : bool :=
  PyStr.startswith line "diff --git" || PyStr.startswith line "+++" ||
  PyStr.startswith line "@@".

(** The header of a hunk, printed from its four numbers. *)
Definition header_line (a b c d : Z) (tail : string) : string :=
  "@@ -" +:+ PyStr.str_of_int a +:+ "," +:+ PyStr.str_of_int b +:+ " +" +:+
  PyStr.str_of_int c +:+ "," +:+ PyStr.str_of_int d +:+ " @@" +:+ tail.

(** A string with no character [c]. *)
Fixpoint char_free (c : ascii) (s : string) : bool :=
  match s with
  | EmptyString => true
  | String a s' => negb (Ascii.eqb a c) && char_free c s'
  end.

(** A string of decimal digits. *)
Fixpoint all_digits (s : string) : bool :=
  match s with
  | EmptyString => true
  | String a s' => HunkRe.is_digit a && all_digits s'
  end.

(** A string that does not go on with a digit. *)
Definition no_digit_ahead (s : string) : bool :=
  match s with
  | EmptyString => true
  | String a _ => negb (HunkRe.is_digit a)
  end.

(** The paths of the files that the loop holds: those committed, then
    the current one. *)
Definition open_paths (st : DiffParser.state) : list string :=
  map DiffParser.fo_path (DiffParser.st_files st) ++
  match DiffParser.current_file st with
  | Some f => [DiffParser.fo_path f]
  | None => []
  end.

(** A hunk that comes from lines of [ls]: its four numbers are the
    groups of a line that starts with [@@], read as integers, and each of
    its changes is what the last branch of the loop makes of some line. *)
Definition from_lines (ls : list string) (h : Hunk) : Prop :=
  (∃ line a b c d,
     line ∈ ls ∧ PyStr.startswith line "@@" = true ∧
     HunkRe.search line = Some (a, b, c, d) ∧
     old_start h = PyStr.digits_value 0 a ∧ old_count h = PyStr.digits_value 0 b ∧
     new_start h = PyStr.digits_value 0 c ∧ new_count h = PyStr.digits_value 0 d) ∧
  (∀ ch, ch ∈ changes h →
         ∃ line bump, line ∈ ls ∧
                      DiffParser.change_of (line_num ch) line = Some (ch, bump)).

(** No line of the text is longer than the interpreter's limit on
    integer strings (or there is no limit). *)
Definition lines_within (m : nat) (s : string) : bool :=
  (m =? 0)%nat ||
  forallb (λ line, (String.length line <=? m)%nat) (PyStr.split "010" s).

(** The head of a mailed patch. *)
Definition mail_header : string :=
  text ["From: someone"; "Subject: [PATCH] fix"; "---"].

(** ** Notions for the properties of the agent *)







(** The character of the markdown fences. *)
Abbreviation backtick := ("`"%char).

(** What [analyze] makes of one object of the answer. *)
Definition comment_of_object (category : string) (items : list (string * json))
  : RawComment :=
  {| raw_file := Analyze.dict_get items "file" (JStr "unknown");
     raw_line := Analyze.dict_get items "line" (JInt 0);
     raw_severity := Analyze.dict_get items "severity" (JStr "low");
     raw_category := category;
     raw_message := Analyze.dict_get items "message" (JStr "");
     raw_suggestion := Analyze.dict_get items "suggestion" (JStr "") |}.

Definition is_object (c : json) : bool :=
  match c with JDict _ => true | _ => false end.
(** * Properties of the parser *)

Section ParserScenarios.
Import DiffParser.

(** C1, as the specification states it, fails: the text of Scenario A has
    no [+++] line, so no [FileChange] is ever current, the change lines are
    skipped and the result has no file and hence no hunk at all. *)
Lemma scenario_A_has_no_hunk :
  parse scenario_A = Ok {| files := [] |} ∧
  ¬ ∃ pd h,
      parse scenario_A = Ok pd ∧
      concat (map hunks (files pd)) = [h] ∧
      new_start h = 10 ∧
      map (λ c, (type c, line_num c)) (changes h)
      = [("context", 10); ("add", 11); ("remove", 11); ("context", 12)].
Proof.
  split; [by vm_compute|].
  intros (pd & h & Hpd & Hh & _).
  vm_compute in Hpd. injection Hpd as <-. discriminate Hh.
Qed.

(** C1, amended: on the text of Scenario A itself [parse] returns an
    empty file list; once the hunk stands in a file section (a [+++] line
    before it) the result is one [FileChange] with exactly one [Hunk],
    [new_start = 10], whose changes are context at line 10, added at 11,
    removed at 12 (the cursor after the added line) and context at 12. *)
Theorem scenario_A_parsed :
  parse scenario_A = Ok {| files := [] |} ∧
  parse scenario_A_in_file
  = Ok {| files :=
            [ {| path := "f.py";
                 hunks :=
                   [ {| old_start := 10; old_count := 5;
                        new_start := 10; new_count := 7;
                        changes :=
                          [ mkChange "context" 10 "line1";
                            mkChange "add" 11 "added1";
                            mkChange "remove" 12 "removed1";
                            mkChange "context" 12 "context" ] |} ] |} ] |}.
Proof. split; by vm_compute. Qed.

(** C3 at its failing input: when the second [diff --git] line of
    [two_files] is reached the first file is current with no hunk
    committed yet and its one hunk is the current hunk; the branch commits
    the file as it is and resets both variables, so the hunk reaches no
    file and [parse] returns [f.py] with an empty hunk list. *)
Theorem file_marker_drops_open_hunk :
  before_second_file
  = Ok {| st_files := [];
          current_file := Some {| fo_path := "f.py"; fo_hunks := [] |};
          current_hunk := Some 0%nat;
          new_line_num := 3;
          store := [hunk_ab] |} ∧
  after_second_file
  = Ok {| st_files := [ {| fo_path := "f.py"; fo_hunks := [] |} ];
          current_file := None;
          current_hunk := None;
          new_line_num := 3;
          store := [hunk_ab] |} ∧
  parse two_files
  = Ok {| files :=
            [ {| path := "f.py"; hunks := [] |};
              {| path := "g.py";
                 hunks := [ mkHunk 3 2 3 2 [mkChange "add" 3 "c"] ] |} ] |}.
Proof. repeat split; by vm_compute. Qed.

(** C4 at its failing input: on the line [+++ /dev/null] the slice
    [line[6:]] is [ev/null], which is not the null-device path, so a
    [FileChange] of that name is opened and receives the hunk. *)
Theorem deleted_file_is_kept :
  PyStr.strip (PyStr.slice_from 6 "+++ /dev/null") = "ev/null" ∧
  parse deleted_file
  = Ok {| files :=
            [ {| path := "ev/null";
                 hunks :=
                   [ mkHunk 1 2 0 0
                       [mkChange "remove" 0 "a"; mkChange "remove" 0 "b"] ] |} ] |}.
Proof. split; by vm_compute. Qed.

(** C5 at its failing input: the header [@@ -9 +9 @@] fails the pattern
    and opens no hunk, but the hunk before it stays current; the two change
    lines after the header are appended to it, and the hunk is in the
    file's list twice. *)
Theorem lines_after_bad_header_are_kept :
  HunkRe.search "@@ -9 +9 @@" = None ∧
  parse short_header
  = Ok {| files :=
            [ {| path := "f.py";
                 hunks :=
                   [ mkHunk 1 2 1 2
                       [mkChange "context" 1 "a"; mkChange "add" 2 "b";
                        mkChange "remove" 3 "x"; mkChange "add" 3 "y"];
                     mkHunk 1 2 1 2
                       [mkChange "context" 1 "a"; mkChange "add" 2 "b";
                        mkChange "remove" 3 "x"; mkChange "add" 3 "y"] ] |} ] |}.
Proof. split; by vm_compute. Qed.

(** C8 at its failing input: the header matches the pattern, its fourth
    group has 4301 digits, and [int] raises [ValueError] under the default
    limit of 4300 digits; nothing in [parse] catches it. *)
Theorem long_header_raises :
  (∃ a b c d, HunkRe.search long_header = Some (a, b, c, d) ∧
              String.length d = 4301%nat) ∧
  parse long_header
  = Raise (ValueError "Exceeds the limit for integer string conversion").
Proof.
  split; [|by vm_compute].
  exists "1", "1", "1", (ones 4301). split; by vm_compute.
Qed.

End ParserScenarios.

(** ** The results monad and the loop *)

Lemma for_each_app {S X} (body : S → X → result S) xs ys st :
  for_each body (xs ++ ys) st
  = bind (for_each body xs st) (for_each body ys).
Proof.
  revert st. induction xs as [|x xs IH]; intros st; simpl; [done|].
  destruct (body st x); simpl; auto.
Qed.

(** An invariant of the body is an invariant of the loop. *)
Lemma for_each_inv {S X} (P : S → Prop) (body : S → X → result S) xs :
  (∀ st x st', P st → body st x = Ok st' → P st') →
  ∀ st st', P st → for_each body xs st = Ok st' → P st'.
Proof.
  intros Hbody. induction xs as [|x xs IH]; intros st st' HP; simpl.
  - by intros [= <-].
  - destruct (body st x) as [st1|e] eqn:Hx; simpl; [|done].
    apply IH. by eapply Hbody.
Qed.

(** A body that never raises makes a loop that never raises. *)
Lemma for_each_total {S X} (body : S → X → result S) xs :
  (∀ st x, ∃ st', body st x = Ok st') →
  ∀ st, ∃ st', for_each body xs st = Ok st'.
Proof.
  intros Hbody. induction xs as [|x xs IH]; intros st; simpl; [by eexists|].
  destruct (Hbody st x) as [st1 ->]. simpl. apply IH.
Qed.

(** ** The cursor *)

Section Cursor.
Import DiffParser.

Lemma removed_not_new_side c : removed c → ¬ new_side c.
Proof. unfold removed, new_side. intros -> [?|?]; discriminate. Qed.

Lemma new_lines_nil : new_lines [] = 0.
Proof. done. Qed.

Lemma new_lines_cons_new c cs : new_side c → new_lines (c :: cs) = 1 + new_lines cs.
Proof.
  intros Hc. unfold new_lines. rewrite filter_cons_True by done. simpl length. lia.
Qed.

Lemma new_lines_cons_removed c cs : removed c → new_lines (c :: cs) = new_lines cs.
Proof.
  intros Hc. unfold new_lines.
  by rewrite filter_cons_False by by apply removed_not_new_side.
Qed.

Lemma new_lines_snoc_new cs c : new_side c → new_lines (cs ++ [c]) = new_lines cs + 1.
Proof.
  intros Hc. unfold new_lines.
  rewrite filter_app, length_app, filter_cons_True by done. simpl length. lia.
Qed.

Lemma new_lines_snoc_removed cs c : removed c → new_lines (cs ++ [c]) = new_lines cs.
Proof.
  intros Hc. unfold new_lines.
  rewrite filter_app, length_app, filter_cons_False by by apply removed_not_new_side.
  simpl length. lia.
Qed.

(** Appending at the cursor keeps a hunk numbered. *)
Lemma numbered_snoc cur cs c :
  numbered cur cs → line_num c = cur + new_lines cs → new_side c ∨ removed c →
  numbered cur (cs ++ [c]).
Proof.
  revert cur. induction cs as [|c0 cs IH]; intros cur Hcs Hc Hk; simpl.
  - rewrite new_lines_nil in Hc. split; [lia|]. destruct Hk; [left|right]; done.
  - destruct Hcs as [Hc0 [[Hn Hcs]|[Hr Hcs]]]; (split; [done|]).
    + left. split; [done|]. apply IH; [done| |done].
      rewrite new_lines_cons_new in Hc by done. lia.
    + right. split; [done|]. apply IH; [done| |done].
      by rewrite new_lines_cons_removed in Hc.
Qed.

(** Every change carries the start plus the number of new-side changes
    before it. *)
Lemma numbered_lookup cur cs i c :
  numbered cur cs → cs !! i = Some c →
  line_num c = cur + new_lines (take i cs) ∧ (new_side c ∨ removed c).
Proof.
  revert cur i. induction cs as [|c0 cs IH]; intros cur i Hcs Hi; [done|].
  destruct Hcs as [Hc0 Hcs]. destruct i as [|i]; simpl in Hi.
  - injection Hi as <-. rewrite take_0, new_lines_nil.
    split; [lia|]. destruct Hcs as [[? _]|[? _]]; auto.
  - simpl take. destruct Hcs as [[Hn Hcs]|[Hr Hcs]].
    + destruct (IH _ _ Hcs Hi) as [-> ?]. rewrite new_lines_cons_new by done.
      split; [lia|done].
    + destruct (IH _ _ Hcs Hi) as [-> ?]. by rewrite new_lines_cons_removed.
Qed.

Lemma numbered_take cur cs i : numbered cur cs → numbered cur (take i cs).
Proof.
  revert cur i. induction cs as [|c0 cs IH]; intros cur i Hcs; [by destruct i|].
  destruct i as [|i]; [done|]. simpl. destruct Hcs as [Hc0 Hcs].
  split; [done|]. destruct Hcs as [[? ?]|[? ?]]; [left|right]; auto.
Qed.

(** The new-side changes are numbered consecutively from the start. *)
Lemma numbered_new_side cur cs j c :
  numbered cur cs → filter new_side cs !! j = Some c →
  line_num c = cur + Z.of_nat j.
Proof.
  revert cur j. induction cs as [|c0 cs IH]; intros cur j Hcs Hj; [done|].
  destruct Hcs as [Hc0 [[Hn Hcs]|[Hr Hcs]]].
  - rewrite filter_cons_True in Hj by done. destruct j as [|j]; simpl in Hj.
    + injection Hj as <-. lia.
    + rewrite (IH _ _ Hcs Hj). lia.
  - rewrite filter_cons_False in Hj by by apply removed_not_new_side. eauto.
Qed.

End Cursor.

(** ** The loop keeps the cursor invariant *)

Section CursorInvariant.
Import DiffParser.

Lemma change_of_spec cur line c bump :
  change_of cur line = Some (c, bump) →
  line_num c = cur ∧ ((new_side c ∧ bump = 1) ∨ (removed c ∧ bump = 0)).
Proof.
  unfold change_of, new_side, removed.
  repeat case_match; intros [= <- <-]; simpl; auto.
Qed.

Lemma cursor_inv_init : cursor_inv init.
Proof. split; intros r h; simpl; [by rewrite lookup_nil | done]. Qed.

Lemma cursor_inv_on_file_marker st : cursor_inv st → cursor_inv (on_file_marker st).
Proof. intros [H1 H2]. split; simpl; [exact H1 | done]. Qed.

Lemma cursor_inv_on_path_line st line : cursor_inv st → cursor_inv (on_path_line st line).
Proof.
  intros H. unfold on_path_line.
  case_match; [exact H|]. destruct H as [H1 H2]. split; simpl; assumption.
Qed.

Lemma cursor_inv_commit_hunk st : cursor_inv st → cursor_inv (commit_hunk st).
Proof.
  intros H. unfold commit_hunk.
  destruct (current_hunk st) as [r|] eqn:Hr; [|exact H].
  destruct (current_file st) as [f|]; [|exact H].
  destruct H as [H1 H2]. split; simpl; [exact H1|].
  intros r' h Hr'. apply H2. congruence.
Qed.

Lemma cursor_inv_open_hunk m st line st' :
  cursor_inv st → open_hunk m st line = Ok st' → cursor_inv st'.
Proof.
  intros [H1 H2]. unfold open_hunk.
  destruct (HunkRe.search line) as [[[[a b] c] d]|]; [|by intros [= <-]].
  destruct (PyStr.int_of_digits m a) as [oa|]; simpl; [|done].
  destruct (PyStr.int_of_digits m b) as [ob|]; simpl; [|done].
  destruct (PyStr.int_of_digits m c) as [nc|]; simpl; [|done].
  destruct (PyStr.int_of_digits m d) as [nd|]; simpl; [|done].
  intros [= <-]. split; simpl.
  - intros r h Hr. apply lookup_app_Some in Hr as [Hr|[_ Hr]]; [by eapply H1|].
    apply list_lookup_singleton_Some in Hr as [_ <-]. done.
  - intros r h [= <-]. rewrite lookup_app_r, Nat.sub_diag by done.
    intros [= <-]. simpl. rewrite new_lines_nil. lia.
Qed.

Lemma cursor_inv_push_change st r c bump :
  cursor_inv st → current_hunk st = Some r →
  line_num c = new_line_num st →
  (new_side c ∧ bump = 1) ∨ (removed c ∧ bump = 0) →
  cursor_inv (push_change st r c bump).
Proof.
  intros [H1 H2] Hr Hc Hk. split; simpl.
  - intros r' h' Hr'. destruct (decide (r' = r)) as [->|Hne].
    + rewrite list_lookup_alter_eq in Hr'.
      destruct (store st !! r) as [h|] eqn:Hh; simplify_eq/=.
      apply numbered_snoc; [by eapply H1| |].
      * rewrite Hc. by eapply H2.
      * destruct Hk as [[? _]|[? _]]; auto.
    + rewrite list_lookup_alter_ne in Hr' by done. by eapply H1.
  - intros r' h'. rewrite Hr. intros [= <-]. rewrite list_lookup_alter_eq.
    destruct (store st !! r) as [h|] eqn:Hh; simpl; [|done].
    intros [= <-]. simpl. rewrite (H2 _ _ Hr Hh).
    destruct Hk as [[? ->]|[? ->]].
    + rewrite new_lines_snoc_new by done. lia.
    + rewrite new_lines_snoc_removed by done. lia.
Qed.

Lemma cursor_inv_on_change_line st line : cursor_inv st → cursor_inv (on_change_line st line).
Proof.
  intros H. unfold on_change_line.
  destruct (current_hunk st) as [r|] eqn:Hr; [|done].
  destruct (current_file st); [|done].
  destruct (change_of (new_line_num st) line) as [[c bump]|] eqn:Hc; [|done].
  apply change_of_spec in Hc as [? ?]. by apply cursor_inv_push_change.
Qed.

Lemma cursor_inv_step m st line st' :
  cursor_inv st → step m st line = Ok st' → cursor_inv st'.
Proof.
  intros H. unfold step. repeat case_match.
  - intros [= <-]. by apply cursor_inv_on_file_marker.
  - intros [= <-]. by apply cursor_inv_on_path_line.
  - apply cursor_inv_open_hunk. by apply cursor_inv_commit_hunk.
  - intros [= <-]. by apply cursor_inv_on_change_line.
Qed.

Lemma cursor_inv_run m s st : run m s = Ok st → cursor_inv st.
Proof.
  unfold run. apply (for_each_inv cursor_inv); [|apply cursor_inv_init].
  intros st0 x st1. apply cursor_inv_step.
Qed.

(** Every hunk of the result is an object of the final store. *)
Lemma parse_with_hunk_in_store m s pd f h :
  parse_with m s = Ok pd → f ∈ files pd → h ∈ hunks f →
  ∃ st r, run m s = Ok st ∧ store st !! r = Some h.
Proof.
  unfold parse_with. destruct (run m s) as [st|] eqn:Hrun; simpl; [|done].
  intros [= <-]. simpl. intros Hf Hh.
  apply list_elem_of_fmap in Hf as (fo & -> & _). simpl in Hh.
  apply list_elem_of_omap in Hh as (r & _ & Hr). eauto.
Qed.

Lemma parse_with_numbered m s pd f h :
  parse_with m s = Ok pd → f ∈ files pd → h ∈ hunks f →
  numbered (new_start h) (changes h).
Proof.
  intros Hp Hf Hh.
  destruct (parse_with_hunk_in_store _ _ _ _ _ Hp Hf Hh) as (st & r & Hrun & Hr).
  apply cursor_inv_run in Hrun as [H1 _]. by eapply H1.
Qed.

End CursorInvariant.

(** ** The line cursor of a parsed hunk *)

Section LineCursor.
Import DiffParser.

(** C9, as the specification states it, fails in its last clause: in
    the hunk of Scenario A the removed change is numbered 12, the cursor
    after the added line, while the change immediately before it is
    numbered 11. *)
Lemma removed_line_is_past_its_predecessor :
  ∃ pd f h p c,
    parse scenario_A_in_file = Ok pd ∧ f ∈ files pd ∧ h ∈ hunks f ∧
    changes h !! 1%nat = Some p ∧ changes h !! 2%nat = Some c ∧
    removed c ∧ line_num p = 11 ∧ line_num c = 12 ∧
    line_num c ≠ line_num p.
Proof.
  eexists _, _, _, _, _. split; [by vm_compute|].
  split; [apply list_elem_of_here|]. split; [apply list_elem_of_here|].
  repeat split; done.
Qed.

(** C9, amended: in every hunk of [parse]'s result the first added or
    context change is numbered [new_start]; each later added or context
    change is numbered one more than the added or context change before
    it; and a removed change, which does not move the cursor, carries the
    cursor itself: [new_start] when no added or context change precedes it
    in the hunk, and otherwise one more than the number of the nearest
    added or context change before it.  Changes have no other kind. *)
Theorem line_cursor_invariant m s pd f h :
  parse_with m s = Ok pd → f ∈ files pd → h ∈ hunks f →
  (∀ c, head (filter new_side (changes h)) = Some c → line_num c = new_start h) ∧
  (∀ j c c', filter new_side (changes h) !! j = Some c →
             filter new_side (changes h) !! S j = Some c' →
             line_num c' = line_num c + 1) ∧
  (∀ i c, changes h !! i = Some c → removed c →
          line_num c = match last (filter new_side (take i (changes h))) with
                       | Some p => line_num p + 1
                       | None => new_start h
                       end) ∧
  (∀ c, c ∈ changes h → new_side c ∨ removed c).
Proof.
  intros Hp Hf Hh.
  pose proof (parse_with_numbered _ _ _ _ _ Hp Hf Hh) as Hn.
  repeat split.
  - intros c Hc. rewrite head_lookup in Hc.
    rewrite (numbered_new_side _ _ _ _ Hn Hc). lia.
  - intros j c c' Hc Hc'.
    rewrite (numbered_new_side _ _ _ _ Hn Hc), (numbered_new_side _ _ _ _ Hn Hc'). lia.
  - intros i c Hc _.
    destruct (numbered_lookup _ _ _ _ Hn Hc) as [-> _].
    pose proof (numbered_take _ _ i Hn) as Hpre.
    unfold new_lines.
    destruct (last (filter new_side (take i (changes h)))) as [p|] eqn:Hlast.
    + rewrite last_lookup in Hlast.
      rewrite (numbered_new_side _ _ _ _ Hpre Hlast).
      apply lookup_lt_Some in Hlast. lia.
    + apply last_None in Hlast. rewrite Hlast. simpl. lia.
  - intros c Hc. apply list_elem_of_lookup in Hc as [i Hi].
    by destruct (numbered_lookup _ _ _ _ Hn Hi).
Qed.

Lemma line_cursor_invariant_witness :
  parse_with PyStr.default_max_str_digits scenario_A_in_file
  = Ok {| files := [ {| path := "f.py"; hunks := [hunk_A] |} ] |} ∧
  (∀ c, head (filter new_side (changes hunk_A)) = Some c →
        line_num c = new_start hunk_A) ∧
  (∀ j c c', filter new_side (changes hunk_A) !! j = Some c →
             filter new_side (changes hunk_A) !! S j = Some c' →
             line_num c' = line_num c + 1) ∧
  (∀ i c, changes hunk_A !! i = Some c → removed c →
          line_num c = match last (filter new_side (take i (changes hunk_A))) with
                       | Some p => line_num p + 1
                       | None => new_start hunk_A
                       end) ∧
  (∀ c, c ∈ changes hunk_A → new_side c ∨ removed c).
Proof.
  split; [vm_compute; reflexivity|].
  apply (line_cursor_invariant PyStr.default_max_str_digits scenario_A_in_file
           {| files := [ {| path := "f.py"; hunks := [hunk_A] |} ] |}
           {| path := "f.py"; hunks := [hunk_A] |} hunk_A).
  - vm_compute. reflexivity.
  - simpl. apply list_elem_of_here.
  - simpl. apply list_elem_of_here.
Defined.

End LineCursor.

(** ** Raising *)

Section Raising.
Import DiffParser.

(** With the limit on integer strings switched off, [int] never raises
    on a run of digits, and neither does the loop. *)
Lemma int_of_digits_unlimited s : PyStr.int_of_digits 0 s = Ok (PyStr.digits_value 0 s).
Proof. done. Qed.

Lemma step_unlimited st line : ∃ st', step 0 st line = Ok st'.
Proof.
  unfold step. repeat case_match; try by eexists.
  unfold open_hunk. destruct (HunkRe.search line) as [[[[a b] c] d]|]; by eexists.
Qed.

Lemma parse_with_unlimited s : ∃ pd, parse_with 0 s = Ok pd.
Proof.
  unfold parse_with, run.
  destruct (for_each_total (step 0) (PyStr.split "010" s) step_unlimited init) as [st ->].
  by eexists.
Qed.

(** The groups that [HunkRe.search] returns are runs of digits, so
    [int] has no other way to fail than the limit. *)
Lemma int_of_digits_within m s :
  (String.length s ≤ m)%nat → PyStr.int_of_digits m s = Ok (PyStr.digits_value 0 s).
Proof.
  intros Hlen. unfold PyStr.int_of_digits.
  destruct (0 <? m)%nat; simpl; [|done].
  by rewrite (proj2 (Nat.ltb_ge _ _) Hlen).
Qed.

End Raising.

(** ** A header that fails the pattern *)

Section BadHeader.
Import DiffParser.

Lemma startswith_cons b l a p :
  PyStr.startswith (String b l) (String a p) = Ascii.eqb a b && PyStr.startswith l p.
Proof. done. Qed.

Local Ltac head_char :=
  rewrite ?startswith_cons;
  repeat (match goal with
          | |- context [Ascii.eqb ?a ?b] =>
              tryif is_var b
              then destruct (Ascii.eqb_spec a b) as [<-|?]
              else (let v := eval vm_compute in (Ascii.eqb a b) in
                    change (Ascii.eqb a b) with v)
          end; cbn -[Ascii.eqb PyStr.startswith]).

(** A line that starts with [@@] takes the hunk-header branch. *)
Lemma step_header m st line :
  PyStr.startswith line "@@" = true →
  step m st line = open_hunk m (commit_hunk st) line.
Proof.
  unfold step. destruct line as [|a line]; [done|].
  head_char; try done. by intros ->.
Qed.

(** A line from which the last branch makes a change reaches that branch. *)
Lemma step_change_line m st line cur c bump :
  change_of cur line = Some (c, bump) →
  step m st line = Ok (on_change_line st line).
Proof.
  unfold change_of, step. destruct line as [|a line]; [done|].
  head_char; try done.
  by destruct (PyStr.startswith line "++").
Qed.

Lemma int_of_digits_convertible m s :
  convertible m s → PyStr.int_of_digits m s = Ok (PyStr.digits_value 0 s).
Proof. intros [->|Hlen]; [done|]. by apply int_of_digits_within. Qed.

End BadHeader.

(** ** Committing a file and its hunk *)

Section Commit.
Import DiffParser.

(** The [diff --git] branch commits the current file as it is: the
    current hunk is not appended to it. *)
Lemma on_file_marker_commits_file_as_is st f :
  current_file st = Some f →
  st_files (on_file_marker st) = st_files st ++ [f] ∧
  current_file (on_file_marker st) = None ∧
  current_hunk (on_file_marker st) = None ∧
  store (on_file_marker st) = store st.
Proof. intros Hf. unfold on_file_marker. simpl. by rewrite Hf. Qed.

(** The statements after the loop do append it. *)
Lemma finish_commits_current_hunk st f r :
  current_file st = Some f → current_hunk st = Some r →
  finish st = st_files st ++ [append_hunk f r].
Proof. intros Hf Hr. unfold finish. by rewrite Hf, Hr. Qed.

Lemma refs_valid_init : refs_valid init.
Proof.
  repeat split; simpl; try done. by intros f r ?%elem_of_nil.
Qed.

Lemma refs_valid_on_file_marker st : refs_valid st → refs_valid (on_file_marker st).
Proof.
  intros (Hfs & Hf & Hr). unfold on_file_marker. split; [|by split]. simpl.
  intros f r Hin. destruct (current_file st) as [f0|] eqn:Hf0; [|by eauto].
  apply elem_of_app in Hin as [Hin|Hin]; [by eauto|].
  apply list_elem_of_singleton in Hin as ->. by eauto.
Qed.

Lemma refs_valid_on_path_line st line : refs_valid st → refs_valid (on_path_line st line).
Proof.
  intros Hv. unfold on_path_line. case_match; [exact Hv|].
  destruct Hv as (Hfs & Hf & Hr). split; [exact Hfs|]. split; [|exact Hr]. simpl.
  by intros f r [= <-] ?%elem_of_nil.
Qed.

Lemma refs_valid_commit_hunk st : refs_valid st → refs_valid (commit_hunk st).
Proof.
  intros Hv. unfold commit_hunk.
  destruct (current_hunk st) as [r0|] eqn:Hr0; [|exact Hv].
  destruct (current_file st) as [f0|] eqn:Hf0; [|exact Hv].
  destruct Hv as (Hfs & Hf & Hr). split; [exact Hfs|]. split; simpl.
  - intros f r [= <-]. simpl. intros [Hin|Hin]%elem_of_app; [by eauto|].
    apply list_elem_of_singleton in Hin as ->. by eauto.
  - intros r Hr1. apply Hr. congruence.
Qed.

Lemma refs_valid_open_hunk m st line st' :
  refs_valid st → open_hunk m st line = Ok st' → refs_valid st'.
Proof.
  intros Hv. unfold open_hunk.
  destruct (HunkRe.search line) as [[[[a b] c] d]|]; [|by intros [= <-]].
  destruct (PyStr.int_of_digits m a); simpl; [|done].
  destruct (PyStr.int_of_digits m b); simpl; [|done].
  destruct (PyStr.int_of_digits m c); simpl; [|done].
  destruct (PyStr.int_of_digits m d); simpl; [|done].
  destruct Hv as (Hfs & Hf & Hr).
  intros [= <-]. repeat split; simpl; rewrite length_app; simpl.
  - intros f r Hin Hr1. specialize (Hfs _ _ Hin Hr1). lia.
  - intros f r Hin Hr1. specialize (Hf _ _ Hin Hr1). lia.
  - intros r [= <-]. lia.
Qed.

Lemma refs_valid_on_change_line st line : refs_valid st → refs_valid (on_change_line st line).
Proof.
  intros Hv. unfold on_change_line.
  destruct (current_hunk st) as [r0|] eqn:Hr0; [|exact Hv].
  destruct (current_file st) as [f0|] eqn:Hf0; [|exact Hv].
  destruct (change_of (new_line_num st) line) as [[c bump]|]; [|exact Hv].
  destruct Hv as (Hfs & Hf & Hr).
  unfold push_change. repeat split; simpl; rewrite length_alter; auto.
Qed.

Lemma refs_valid_step m st line st' :
  refs_valid st → step m st line = Ok st' → refs_valid st'.
Proof.
  intros Hv. unfold step. repeat case_match.
  - intros [= <-]. by apply refs_valid_on_file_marker.
  - intros [= <-]. by apply refs_valid_on_path_line.
  - apply refs_valid_open_hunk. by apply refs_valid_commit_hunk.
  - intros [= <-]. by apply refs_valid_on_change_line.
Qed.

Lemma refs_valid_run m s st : run m s = Ok st → refs_valid st.
Proof.
  unfold run. apply (for_each_inv refs_valid); [|apply refs_valid_init].
  intros st0 x st1. apply refs_valid_step.
Qed.

(** So reading the graph loses nothing: a file of the result has as
    many hunks as the file object has references. *)
Lemma read_file_length sto f :
  (∀ r, r ∈ fo_hunks f → (r < length sto)%nat) →
  length (hunks (read_file sto f)) = length (fo_hunks f).
Proof.
  unfold read_file. simpl. induction (fo_hunks f) as [|r rs IH]; intros Hv; [done|].
  simpl. destruct (lookup_lt_is_Some_2 sto r) as [h ->].
  { apply Hv, list_elem_of_here. }
  simpl. f_equal. apply IH. intros r' Hr'. apply Hv. by apply list_elem_of_further.
Qed.

Lemma finish_refs_valid st f r :
  refs_valid st → f ∈ finish st → r ∈ fo_hunks f → (r < length (store st))%nat.
Proof.
  intros (Hfs & Hf & Hr) Hin Hr1. unfold finish in Hin.
  destruct (current_file st) as [f0|] eqn:Hf0; [|by eauto].
  apply elem_of_app in Hin as [Hin|Hin]; [by eauto|].
  apply list_elem_of_singleton in Hin as ->.
  destruct (current_hunk st) as [r0|] eqn:Hr0; [|by eauto].
  simpl in Hr1. apply elem_of_app in Hr1 as [Hr1|Hr1]; [by eauto|].
  apply list_elem_of_singleton in Hr1 as ->. by eauto.
Qed.

(** The result of [parse] is the object graph, reference for reference. *)
Lemma parse_with_reads_graph m s pd :
  parse_with m s = Ok pd →
  ∃ st, run m s = Ok st ∧
        files pd = map (read_file (store st)) (finish st) ∧
        ∀ f, f ∈ finish st →
             length (hunks (read_file (store st) f)) = length (fo_hunks f).
Proof.
  unfold parse_with. destruct (run m s) as [st|] eqn:Hrun; simpl; [|done].
  intros [= <-]. exists st. split; [done|]. split; [done|].
  intros f Hf. apply read_file_length. intros r Hr.
  eapply finish_refs_valid; [by eapply refs_valid_run|done..].
Qed.

End Commit.

(** ** A header that fails the pattern, in the result *)

Section BadHeaderResult.
Import DiffParser.

(** Writing to the object at [i] puts the written object there. *)
Lemma alter_as_insert {A} (g : A → A) (l : list A) i x :
  l !! i = Some x → alter g i l = <[i := g x]> l.
Proof.
  revert i. induction l as [|y l IH]; intros [|i]; simpl; try done.
  - by intros [= ->].
  - intros Hi. f_equal. by apply IH.
Qed.

(** A line that is no marker reaches the last branch of the loop. *)
Lemma step_non_marker m st line :
  is_marker line = false → step m st line = Ok (on_change_line st line).
Proof.
  unfold is_marker, step. intros H.
  apply orb_false_elim in H as [H H3]. apply orb_false_elim in H as [H1 H2].
  by rewrite H1, H2, H3.
Qed.

Lemma with_changes_nil h : with_changes h [] = h.
Proof. destruct h. unfold with_changes. simpl. by rewrite app_nil_r. Qed.

Lemma with_changes_cons h c cs :
  with_changes (append_change c h) cs = with_changes h (c :: cs).
Proof. unfold with_changes, append_change. simpl. by rewrite <- app_assoc. Qed.

(** Over lines that are no markers, with a file and a hunk current,
    the loop never raises and changes only the cursor and the current
    [Hunk] object, which receives the changes of these lines in order. *)
Lemma for_each_change_lines m ls : ∀ st f r h,
  current_file st = Some f → current_hunk st = Some r → store st !! r = Some h →
  forallb (λ l, negb (is_marker l)) ls = true →
  ∃ cur,
    for_each (step m) ls st
    = Ok {| st_files := st_files st; current_file := Some f;
            current_hunk := Some r; new_line_num := cur;
            store := <[r := with_changes h (changes_of (new_line_num st) ls)]> (store st) |}.
Proof.
  induction ls as [|l ls IH]; intros st f r h Hf Hr Hh Hls.
  - exists (new_line_num st). simpl. rewrite with_changes_nil, list_insert_id by done.
    destruct st. simpl in *. by rewrite Hf, Hr.
  - simpl in Hls. apply andb_prop in Hls as [Hl Hls]. apply negb_true_iff in Hl.
    simpl. rewrite step_non_marker by done. simpl.
    unfold on_change_line. rewrite Hr, Hf.
    destruct (change_of (new_line_num st) l) as [[c bump]|] eqn:Hc.
    + destruct (IH (push_change st r c bump) f r (append_change c h)) as [cur ->];
        try done.
      { simpl. by rewrite list_lookup_alter_eq, Hh. }
      exists cur. simpl. f_equal. f_equal.
      rewrite (alter_as_insert _ _ _ _ Hh), list_insert_insert_eq.
      by rewrite with_changes_cons.
    + by apply IH.
Qed.

(** Objects created later do not change what a file with valid
    references reads. *)
Lemma read_file_valid sto extra f :
  (∀ r, r ∈ fo_hunks f → (r < length sto)%nat) →
  read_file (sto ++ extra) f = read_file sto f.
Proof.
  intros Hv. unfold read_file. f_equal.
  apply list_omap_ext, Forall2_same_length_lookup. split; [done|].
  intros i r r' Hr Hr'. assert (r' = r) as -> by congruence.
  apply lookup_app_l, Hv. by eapply list_elem_of_lookup_2.
Qed.

(** C10: let the lines of the text be [pre], a line [bad] that starts
    with [@@] and fails the pattern, lines [ls] that are no markers, a
    header [hdr] that matches, and lines [ls2] that are no markers; and let
    the loop reach [bad] with a file [f] and a hunk (the object at [r],
    holding [h]) current.  Then the iteration of [bad] appends [r] to the
    file's list and leaves [r] current, with the store and the cursor
    untouched; when the loop has passed [hdr] the file's list ends with
    [r] twice, the object at [r] holds the changes of [h] followed by the
    changes of the lines [ls], numbered from the cursor [bad] was reached
    with, and a fresh hunk is current; and [parse] returns the files
    committed before, followed by this file, whose hunk list ends with
    that changed hunk twice and then the hunk of [hdr] with the changes
    of [ls2]. *)
Theorem bad_header_keeps_committed_hunk m s pre bad ls hdr ls2 st f r h a b c d :
  PyStr.split "010" s = pre ++ bad :: ls ++ hdr :: ls2 →
  for_each (step m) pre init = Ok st →
  current_file st = Some f → current_hunk st = Some r → store st !! r = Some h →
  PyStr.startswith bad "@@" = true → HunkRe.search bad = None →
  forallb (λ l, negb (is_marker l)) ls = true →
  PyStr.startswith hdr "@@" = true → HunkRe.search hdr = Some (a, b, c, d) →
  convertible m a → convertible m b → convertible m c → convertible m d →
  forallb (λ l, negb (is_marker l)) ls2 = true →
  let h' := {| old_start := old_start h; old_count := old_count h;
               new_start := new_start h; new_count := new_count h;
               changes := changes h ++ changes_of (new_line_num st) ls |} in
  let sto := <[r := h']> (store st) in
  let n_start := PyStr.digits_value 0 c in
  let next cs := {| old_start := PyStr.digits_value 0 a;
                    old_count := PyStr.digits_value 0 b;
                    new_start := n_start;
                    new_count := PyStr.digits_value 0 d;
                    changes := cs |} in
  step m st bad
  = Ok {| st_files := st_files st;
          current_file := Some {| fo_path := fo_path f; fo_hunks := fo_hunks f ++ [r] |};
          current_hunk := Some r;
          new_line_num := new_line_num st;
          store := store st |} ∧
  for_each (step m) (pre ++ bad :: ls ++ [hdr]) init
  = Ok {| st_files := st_files st;
          current_file := Some {| fo_path := fo_path f; fo_hunks := fo_hunks f ++ [r; r] |};
          current_hunk := Some (length (store st));
          new_line_num := n_start;
          store := sto ++ [next []] |} ∧
  parse_with m s
  = Ok {| files :=
            map (read_file sto) (st_files st) ++
            [ {| path := fo_path f;
                 hunks := omap (λ r0, sto !! r0) (fo_hunks f) ++
                          [h'; h'; next (changes_of n_start ls2)] |} ] |}.
Proof.
  intros Hs Hpre Hf Hr Hh Hbad Hno Hls Hhdr Hyes Ha Hb Hc Hd Hls2 h' sto n_start next.
  assert (Hv : refs_valid st).
  { revert Hpre. apply (for_each_inv refs_valid); [|apply refs_valid_init].
    intros st0 x st1. apply refs_valid_step. }
  destruct Hv as (Hvfs & Hvf & Hvr).
  assert (Hlt : (r < length (store st))%nat) by by apply Hvr.
  assert (Hstep : step m st bad
    = Ok {| st_files := st_files st;
            current_file := Some {| fo_path := fo_path f; fo_hunks := fo_hunks f ++ [r] |};
            current_hunk := Some r;
            new_line_num := new_line_num st;
            store := store st |}).
  { rewrite step_header by done. unfold open_hunk. rewrite Hno.
    unfold commit_hunk. by rewrite Hr, Hf. }
  assert (Hrun : for_each (step m) (pre ++ bad :: ls ++ [hdr]) init
    = Ok {| st_files := st_files st;
            current_file := Some {| fo_path := fo_path f; fo_hunks := fo_hunks f ++ [r; r] |};
            current_hunk := Some (length (store st));
            new_line_num := n_start;
            store := sto ++ [next []] |}).
  { rewrite for_each_app, Hpre. simpl. rewrite Hstep. simpl.
    rewrite for_each_app.
    edestruct (for_each_change_lines m ls) as [cur ->]; [..|exact Hls|]; try done.
    simpl. rewrite step_header by done. unfold open_hunk. rewrite Hyes.
    rewrite !int_of_digits_convertible by done. simpl.
    unfold commit_hunk. simpl. unfold append_hunk. simpl.
    by rewrite <- app_assoc, length_insert. }
  split; [exact Hstep|]. split; [exact Hrun|].
  unfold parse_with, run. rewrite Hs.
  change (pre ++ bad :: ls ++ hdr :: ls2) with (pre ++ bad :: ls ++ [hdr] ++ ls2).
  rewrite (app_assoc ls [hdr] ls2), app_comm_cons, app_assoc.
  rewrite for_each_app, Hrun. simpl.
  edestruct (for_each_change_lines m ls2) as [cur ->]; [..|exact Hls2|]; try done.
  { simpl. apply list_lookup_middle. unfold sto. by rewrite length_insert. }
  simpl. unfold read, finish. simpl. f_equal. f_equal.
  replace (<[length (store st) := with_changes (next []) (changes_of n_start ls2)]> (sto ++ [next []]))
    with (sto ++ [next (changes_of n_start ls2)]).
  2:{ replace (length (store st)) with (length sto + 0)%nat
        by (unfold sto; rewrite length_insert; lia).
      by rewrite insert_app_r. }
  rewrite map_app. simpl. f_equal.
  - apply map_ext_in. intros f0 Hf0. apply read_file_valid.
    intros r0 Hr0. unfold sto. rewrite length_insert.
    apply (Hvfs f0); [|done]. by apply list_elem_of_In.
  - f_equal. unfold read_file, append_hunk. simpl. f_equal.
    rewrite <- app_assoc, omap_app. f_equal.
    + apply list_omap_ext, Forall2_same_length_lookup. split; [done|].
      intros i r0 r0' Hr0 Hr0'. assert (r0' = r0) as -> by congruence.
      apply lookup_app_l. unfold sto. rewrite length_insert.
      apply (Hvf f); [done|]. by eapply list_elem_of_lookup_2.
    + assert (Hat : (sto ++ [next (changes_of n_start ls2)]) !! r = Some h').
      { rewrite lookup_app_l by (unfold sto; by rewrite length_insert).
        unfold sto. by apply list_lookup_insert_eq. }
      simpl. rewrite Hat. simpl.
      rewrite list_lookup_middle by (unfold sto; by rewrite length_insert).
      done.
Qed.

Lemma bad_header_keeps_committed_hunk_witness :
  PyStr.split "010" bad_then_good
  = ["diff --git a/f.py b/f.py"; "--- a/f.py"; "+++ b/f.py";
     "@@ -1,2 +1,2 @@"; " a"; "+b"] ++
    "@@ -9 +9 @@" :: ["-x"; "+y"] ++ "@@ -20,2 +20,3 @@" :: [" z"; "+w"; ""] ∧
  for_each (step PyStr.default_max_str_digits)
    ["diff --git a/f.py b/f.py"; "--- a/f.py"; "+++ b/f.py";
     "@@ -1,2 +1,2 @@"; " a"; "+b"] init = Ok state_ab ∧
  current_file state_ab = Some {| fo_path := "f.py"; fo_hunks := [] |} ∧
  current_hunk state_ab = Some 0%nat ∧
  store state_ab !! 0%nat = Some hunk_ab ∧
  PyStr.startswith "@@ -9 +9 @@" "@@" = true ∧
  HunkRe.search "@@ -9 +9 @@" = None ∧
  forallb (λ l, negb (is_marker l)) ["-x"; "+y"] = true ∧
  PyStr.startswith "@@ -20,2 +20,3 @@" "@@" = true ∧
  HunkRe.search "@@ -20,2 +20,3 @@" = Some ("20", "2", "20", "3") ∧
  convertible PyStr.default_max_str_digits "20" ∧
  convertible PyStr.default_max_str_digits "2" ∧
  convertible PyStr.default_max_str_digits "20" ∧
  convertible PyStr.default_max_str_digits "3" ∧
  forallb (λ l, negb (is_marker l)) [" z"; "+w"; ""] = true ∧
  step PyStr.default_max_str_digits state_ab "@@ -9 +9 @@"
  = Ok {| st_files := [];
          current_file := Some {| fo_path := "f.py"; fo_hunks := [0%nat] |};
          current_hunk := Some 0%nat;
          new_line_num := 3;
          store := [hunk_ab] |} ∧
  for_each (step PyStr.default_max_str_digits)
    ["diff --git a/f.py b/f.py"; "--- a/f.py"; "+++ b/f.py";
     "@@ -1,2 +1,2 @@"; " a"; "+b"; "@@ -9 +9 @@"; "-x"; "+y";
     "@@ -20,2 +20,3 @@"] init
  = Ok {| st_files := [];
          current_file := Some {| fo_path := "f.py"; fo_hunks := [0%nat; 0%nat] |};
          current_hunk := Some 1%nat;
          new_line_num := 20;
          store := [ mkHunk 1 2 1 2 [ mkChange "context" 1 "a"; mkChange "add" 2 "b";
                                      mkChange "remove" 3 "x"; mkChange "add" 3 "y" ];
                     mkHunk 20 2 20 3 [] ] |} ∧
  parse bad_then_good
  = Ok {| files :=
            [ {| path := "f.py";
                 hunks :=
                   [ mkHunk 1 2 1 2 [ mkChange "context" 1 "a"; mkChange "add" 2 "b";
                                      mkChange "remove" 3 "x"; mkChange "add" 3 "y" ];
                     mkHunk 1 2 1 2 [ mkChange "context" 1 "a"; mkChange "add" 2 "b";
                                      mkChange "remove" 3 "x"; mkChange "add" 3 "y" ];
                     mkHunk 20 2 20 3 [ mkChange "context" 20 "z";
                                        mkChange "add" 21 "w" ] ] |} ] |}.
Proof.
  do 7 (split; [vm_compute; reflexivity|]).
  do 3 (split; [vm_compute; reflexivity|]).
  do 4 (split; [right; apply Nat.leb_le; vm_compute; reflexivity|]).
  split; [vm_compute; reflexivity|].
  apply (bad_header_keeps_committed_hunk PyStr.default_max_str_digits bad_then_good
           ["diff --git a/f.py b/f.py"; "--- a/f.py"; "+++ b/f.py";
            "@@ -1,2 +1,2 @@"; " a"; "+b"]
           "@@ -9 +9 @@" ["-x"; "+y"] "@@ -20,2 +20,3 @@" [" z"; "+w"; ""]
           state_ab {| fo_path := "f.py"; fo_hunks := [] |} 0%nat hunk_ab
           "20" "2" "20" "3");
    try (vm_compute; reflexivity);
    right; apply Nat.leb_le; vm_compute; reflexivity.
Defined.

End BadHeaderResult.

(** * Properties of the orchestrator *)

(** ** The final sort *)

Section SortBySeverity.
Import Agents.
Context {A : Type} (key : A → Z).

Lemma insert_by_perm x l : insert_by key x l ≡ₚ x :: l.
Proof.
  induction l as [|y l IH]; simpl; [done|].
  destruct (key x <=? key y); [done|].
  rewrite IH. apply Permutation_swap.
Qed.

Lemma sort_by_perm l : sort_by key l ≡ₚ l.
Proof.
  induction l as [|x l IH]; simpl; [done|].
  fold (sort_by key l). by rewrite insert_by_perm, IH.
Qed.

Lemma insert_by_sorted x l :
  StronglySorted (key_le key) l → StronglySorted (key_le key) (insert_by key x l).
Proof.
  induction 1 as [|y l Hl IH Hy]; simpl.
  - repeat constructor.
  - destruct (Z.leb_spec (key x) (key y)) as [Hle|Hgt].
    + constructor; [by constructor|]. constructor; [done|].
      eapply Forall_impl; [exact Hy|]. unfold key_le. intros z Hz. simpl in Hz. lia.
    + constructor; [done|]. rewrite insert_by_perm.
      constructor; [unfold key_le; lia | done].
Qed.

Lemma sort_by_sorted l : StronglySorted (key_le key) (sort_by key l).
Proof.
  induction l as [|x l IH]; simpl; [constructor|].
  by apply insert_by_sorted.
Qed.

(** Inserting does not disturb the order inside any class of equal keys. *)
Lemma insert_by_stable r x l :
  filter (λ a, key a = r) (insert_by key x l) = filter (λ a, key a = r) (x :: l).
Proof.
  induction l as [|y l IH]; simpl; [done|].
  destruct (Z.leb_spec (key x) (key y)) as [Hle|Hgt]; [done|].
  rewrite (filter_cons _ y), IH, !(filter_cons _ x), (filter_cons _ y).
  repeat case_decide; try done; lia.
Qed.

Lemma sort_by_stable r l :
  filter (λ a, key a = r) (sort_by key l) = filter (λ a, key a = r) l.
Proof.
  induction l as [|x l IH]; simpl; [done|].
  fold (sort_by key l). rewrite insert_by_stable, !filter_cons, IH. done.
Qed.

End SortBySeverity.

Section FinalSort.
Import Agents.

(** C7: the list that [review] returns is the deduplicated list in
    another order; its severity ranks (high 0, medium 1, low 2, any other
    string 3) never decrease along it; and for every rank the comments of
    that rank stand in the order they had after deduplication.  On the
    severities low, high, medium, high of Scenario C the result is the
    second, the fourth, the third and the first comment. *)
Theorem review_sort_is_stable :
  (∀ s, severity_rank s =
        if decide (s = "high") then 0
        else if decide (s = "medium") then 1
        else if decide (s = "low") then 2 else 3) ∧
  (∀ results,
     review_results results ≡ₚ merge results ∧
     StronglySorted (λ a b, rank a ≤ rank b) (review_results results) ∧
     ∀ r, filter (λ c, rank c = r) (review_results results)
          = filter (λ c, rank c = r) (merge results)) ∧
  review_results [[sev 1 "low"; sev 2 "high"; sev 3 "medium"; sev 4 "high"]]
  = [sev 2 "high"; sev 4 "high"; sev 3 "medium"; sev 1 "low"].
Proof.
  split; [|split].
  - intros s. unfold severity_rank.
    repeat (case_decide; [subst; reflexivity|]).
    by rewrite !(proj2 (String.eqb_neq _ _)).
  - intros results. unfold review_results.
    split; [apply sort_by_perm|]. split; [apply sort_by_sorted|].
    intros r. apply sort_by_stable.
  - by vm_compute.
Qed.

End FinalSort.

(** ** The dedup key *)

Section DedupKey.
Import Agents.

Lemma colon_free_uint d : colon_free (NilEmpty.string_of_uint d) = true.
Proof. induction d; simpl; auto. Qed.

Lemma colon_free_str_of_int n : colon_free (PyStr.str_of_int n) = true.
Proof.
  unfold PyStr.str_of_int, NilZero.string_of_int, NilZero.string_of_uint.
  destruct (Z.to_int n) as [d|d]; destruct d; simpl; auto using colon_free_uint.
Qed.

Lemma to_int_printable z : Z.to_int z ≠ Decimal.Pos Decimal.Nil ∧ Z.to_int z ≠ Decimal.Neg Decimal.Nil.
Proof.
  destruct z as [|p|p]; simpl; split; try done;
    intros [= H]; by apply DecimalPos.Unsigned.to_uint_nonnil in H.
Qed.

(** [str] is injective on [int]. *)
Lemma str_of_int_inj n m : PyStr.str_of_int n = PyStr.str_of_int m → n = m.
Proof.
  unfold PyStr.str_of_int. intros H. apply DecimalZ.to_int_inj.
  destruct (to_int_printable n) as [Hn1 Hn2], (to_int_printable m) as [Hm1 Hm2].
  pose proof (NilZero.isi _ Hn1 Hn2) as Hn. pose proof (NilZero.isi _ Hm1 Hm2) as Hm.
  rewrite H in Hn. congruence.
Qed.

(** The part before the first colon of a string is determined by it. *)
Lemma append_colon_inj a b x y :
  colon_free a = true → colon_free b = true →
  a +:+ ":" +:+ x = b +:+ ":" +:+ y → a = b ∧ x = y.
Proof.
  revert b. induction a as [|c a IH]; intros [|c' b] Ha Hb H; simplify_eq/=.
  - done.
  - apply andb_prop in Ha as [_ Ha]. apply andb_prop in Hb as [_ Hb].
    by destruct (IH _ Ha Hb H0) as [-> ->].
Qed.

(** Between comments whose [file] has no colon, one key means one triple. *)
Lemma dedup_key_triple c c' :
  colon_free (file c) = true → colon_free (file c') = true →
  dedup_key c = dedup_key c' ↔ triple c = triple c'.
Proof.
  intros Hc Hc'. unfold dedup_key, triple. split.
  - intros H. apply append_colon_inj in H as [Hf H]; [|done..].
    apply append_colon_inj in H as [Hl Hm]; [|apply colon_free_str_of_int..].
    apply str_of_int_inj in Hl. congruence.
  - intros [= -> -> ->]. done.
Qed.

End DedupKey.

(** ** Keeping the first occurrence of every key *)

Section FirstBy.
Context {K : Type} `{EqDecision K} (key : Comment → K).

Lemma first_by_elem seen l c :
  c ∈ first_by key seen l ↔
  ∃ i, l !! i = Some c ∧ (key c ∉ seen) ∧
       ∀ j c', (j < i)%nat → l !! j = Some c' → key c' ≠ key c.
Proof.
  revert seen. induction l as [|c0 l IH]; intros seen; simpl.
  { split; [by intros ?%elem_of_nil | by intros (i & ? & _)]. }
  destruct (decide (key c0 ∈ seen)) as [Hin|Hout].
  - rewrite IH. split.
    + intros (i & Hi & Hc & Hfirst). exists (S i).
      split; [done|]. split; [done|].
      intros [|j] c' Hj; simpl; [intros [= <-]; congruence|].
      intros Hj'. eapply Hfirst; [|done]. lia.
    + intros ([|i] & Hi & Hc & Hfirst); simpl in Hi; [congruence|].
      exists i. split; [done|]. split; [done|].
      intros j c' Hj Hj'. apply (Hfirst (S j)); [lia|done].
  - rewrite elem_of_cons, IH. split.
    + intros [->|(i & Hi & Hc & Hfirst)].
      * exists 0%nat. split; [done|]. split; [done|]. lia.
      * apply not_elem_of_cons in Hc as [Hne Hc].
        exists (S i). split; [done|]. split; [done|].
        intros [|j] c' Hj; simpl; [intros [= <-]; congruence|].
        intros Hj'. eapply Hfirst; [|done]. lia.
    + intros ([|i] & Hi & Hc & Hfirst); simpl in Hi; [left; congruence|].
      right. exists i. split; [done|]. split.
      * apply not_elem_of_cons. split; [|done].
        intros Heq. apply (Hfirst 0%nat c0); [lia|done|done].
      * intros j c' Hj Hj'. apply (Hfirst (S j)); [lia|done].
Qed.

Lemma first_by_sublist seen l : sublist (first_by key seen l) l.
Proof.
  revert seen. induction l as [|c0 l IH]; intros seen; simpl; [done|].
  case_decide; [apply sublist_cons | apply sublist_skip]; apply IH.
Qed.

Lemma first_by_NoDup seen l : NoDup (key <$> first_by key seen l).
Proof.
  revert seen. induction l as [|c0 l IH]; intros seen; simpl; [constructor|].
  case_decide; [apply IH|]. rewrite fmap_cons. constructor; [|apply IH].
  intros (c & Heq & Hc)%list_elem_of_fmap.
  apply first_by_elem in Hc as (_ & _ & Hc & _).
  apply Hc. rewrite Heq. apply list_elem_of_here.
Qed.

End FirstBy.

(** Two keys that agree on which comments of a list are equal keep the
    same comments. *)
Lemma first_by_ext {K1 K2 : Type} `{EqDecision K1} `{EqDecision K2}
    (k1 : Comment → K1) (k2 : Comment → K2) (cs l : list Comment) :
  (∀ c c', c ∈ cs ++ l → c' ∈ cs ++ l → k1 c = k1 c' ↔ k2 c = k2 c') →
  first_by k1 (k1 <$> cs) l = first_by k2 (k2 <$> cs) l.
Proof.
  revert cs. induction l as [|c l IH]; intros cs H; simpl; [done|].
  assert (c ∈ cs ++ c :: l) as Hc.
  { apply elem_of_app. right. apply list_elem_of_here. }
  assert (k1 c ∈ k1 <$> cs ↔ k2 c ∈ k2 <$> cs) as Hseen.
  { rewrite !list_elem_of_fmap.
    split; intros (c' & Heq & Hin); exists c'; (split; [|done]);
      (apply H; [done| |done]); apply elem_of_app; by left. }
  destruct (decide (k1 c ∈ k1 <$> cs)), (decide (k2 c ∈ k2 <$> cs)); try tauto.
  - apply IH. intros c1 c2 H1 H2.
    apply H; rewrite elem_of_app, elem_of_cons;
      [apply elem_of_app in H1 | apply elem_of_app in H2]; tauto.
  - f_equal. apply (IH (c :: cs)). intros c1 c2 H1 H2.
    simpl in H1, H2. apply elem_of_cons in H1, H2. rewrite elem_of_app in H1, H2.
    apply H; rewrite elem_of_app, elem_of_cons; tauto.
Qed.

(** ** The merge step *)

Section Merge.
Import Agents.

(** The nested loops visit the comments of the concatenated list. *)
Lemma nested_loops_concat acc (results : list (list Comment)) :
  foldl (λ acc agent_comments, foldl visit acc agent_comments) acc results
  = foldl visit acc (concat results).
Proof.
  revert acc. induction results as [|cs results IH]; intros acc; simpl; [done|].
  by rewrite foldl_app, IH.
Qed.

(** The loop over a list, from any values of [all_comments] and [seen]. *)
Lemma foldl_visit all (seen : gset string) (seenl : list string) l :
  (∀ k, k ∈ seen ↔ k ∈ seenl) →
  (foldl visit (all, seen) l).1 = all ++ first_by dedup_key seenl l.
Proof.
  revert all seen seenl. induction l as [|c l IH]; intros all seen seenl Hseen; simpl.
  { by rewrite app_nil_r. }
  unfold visit at 2. simpl.
  destruct (decide (dedup_key c ∈ seen)) as [Hin|Hout];
    destruct (decide (dedup_key c ∈ seenl)) as [Hin'|Hout'].
  - by apply IH.
  - exfalso. apply Hout'. by apply Hseen.
  - exfalso. apply Hout. by apply Hseen.
  - rewrite (IH _ _ (dedup_key c :: seenl)); [by rewrite <- app_assoc|].
    intros k. rewrite elem_of_union, elem_of_singleton, elem_of_cons, Hseen. done.
Qed.

(** [merge] keeps the first comment of every key, for the key that the
    code computes. *)
Lemma merge_first_by_key results :
  merge results = first_by dedup_key [] (concat results).
Proof.
  unfold merge. rewrite nested_loops_concat.
  rewrite (foldl_visit [] ∅ []); [done|]. intros k.
  split; [by intros ?%not_elem_of_empty | by intros ?%elem_of_nil].
Qed.

(** An agent that returned nothing adds nothing. *)
Lemma merge_skip_empty pre post : merge (pre ++ [] :: post) = merge (pre ++ post).
Proof. by rewrite !merge_first_by_key, !concat_app. Qed.

(** C6, as the specification states it, fails: the key is the string
    [file:line:message[:50]], and two comments whose triples differ in all
    three parts can have one key; the second is discarded, where the
    triple would keep both. *)
Lemma different_triples_one_key :
  file colon_in_file ≠ file colon_in_message ∧
  line colon_in_file ≠ line colon_in_message ∧
  PyStr.slice_to 50 (message colon_in_file) ≠ PyStr.slice_to 50 (message colon_in_message) ∧
  dedup_key colon_in_file = dedup_key colon_in_message ∧
  merge [[colon_in_file]; [colon_in_message]] = [colon_in_file] ∧
  first_occurrences (concat [[colon_in_file]; [colon_in_message]])
  = [colon_in_file; colon_in_message].
Proof. repeat split; by vm_compute. Qed.

(** C6, amended: two comments are duplicates exactly when their key
    strings [file:line:message[:50]] are equal, which for comments whose
    [file] contains no colon is exactly when they agree on the triple
    (file, line, first 50 characters of the message).  On such lists the
    merge step returns the first occurrence of every triple in traversal
    order, whatever the category and severity of the later occurrences: it
    is a subsequence of the concatenated list, no two of its comments have
    one triple, and a comment is in it exactly when it stands at a
    position before which its triple does not occur. *)
Theorem merge_keeps_first_of_each_triple (results : list (list Comment)) :
  (∀ c, c ∈ concat results → colon_free (file c) = true) →
  merge results = first_occurrences (concat results) ∧
  sublist (merge results) (concat results) ∧
  NoDup (triple <$> merge results) ∧
  (∀ c, c ∈ merge results ↔
        ∃ i, concat results !! i = Some c ∧
             ∀ j c', (j < i)%nat → concat results !! j = Some c' →
                     triple c' ≠ triple c).
Proof.
  intros Hfree.
  assert (merge results = first_occurrences (concat results)) as ->.
  { rewrite merge_first_by_key. unfold first_occurrences.
    apply (first_by_ext dedup_key triple []). simpl.
    intros c c' Hc Hc'. apply dedup_key_triple; auto. }
  unfold first_occurrences. split; [done|].
  split; [apply first_by_sublist|]. split; [apply first_by_NoDup|].
  intros c. rewrite first_by_elem. split.
  - intros (i & Hi & _ & Hfirst). eauto.
  - intros (i & Hi & Hfirst). exists i. repeat split; [done| |done].
    apply not_elem_of_nil.
Qed.

Lemma merge_keeps_first_of_each_triple_witness :
  (∀ c, c ∈ concat [[null_check "logic"]; [null_check "security"]] →
        colon_free (file c) = true) ∧
  merge [[null_check "logic"]; [null_check "security"]] = [null_check "logic"].
Proof.
  assert (∀ c, c ∈ concat [[null_check "logic"]; [null_check "security"]] →
               colon_free (file c) = true) as Hfree.
  { intros c Hc. simpl in Hc.
    apply elem_of_cons in Hc as [->|Hc]; [reflexivity|].
    apply elem_of_cons in Hc as [->|Hc]; [reflexivity|].
    by apply elem_of_nil in Hc. }
  split; [exact Hfree|].
  destruct (merge_keeps_first_of_each_triple _ Hfree) as [-> _].
  vm_compute. reflexivity.
Defined.

End Merge.

(** ** An agent that fails *)

Section AgentFailure.
Import Agents.

Lemma map_Ok_inj {A} (vs ws : list A) : map Ok vs = map Ok ws → vs = ws.
Proof.
  revert ws. induction vs as [|v vs IH]; intros [|w ws]; simpl; try done.
  intros [= -> H]. f_equal. by apply IH.
Qed.

Lemma Raise_not_in_map_Ok {A} e (vs : list A) : Raise e ∉ map Ok vs.
Proof. by intros (v & ? & _)%list_elem_of_fmap. Qed.

(** When every task returns, [gather] returns their results. *)
Lemma gather_all_return {A} (vs : list A) g : gather (map Ok vs) g ↔ g = Ok vs.
Proof.
  split; [|intros ->; constructor].
  inversion 1 as [ws Hws|ts e He]; subst.
  - by apply map_Ok_inj in Hws as ->.
  - by apply Raise_not_in_map_Ok in He.
Qed.

(** When one task raises and the others return, [gather] raises its
    exception. *)
Lemma gather_one_raises {A} (pre post : list A) e g :
  gather (map Ok pre ++ Raise e :: map Ok post) g ↔ g = Raise e.
Proof.
  split.
  - inversion 1 as [ws Hws|ts e' He]; subst.
    + exfalso. apply (Raise_not_in_map_Ok e ws). rewrite Hws.
      apply elem_of_app. right. apply list_elem_of_here.
    + apply elem_of_app in He as [He|He]; [by apply Raise_not_in_map_Ok in He|].
      apply elem_of_cons in He as [[= ->]|He]; [done|].
      by apply Raise_not_in_map_Ok in He.
  - intros ->. constructor. apply elem_of_app. right. apply list_elem_of_here.
Qed.

Lemma review_all_return results res :
  review (map Ok results) res ↔ res = Ok (review_results results).
Proof.
  unfold review. split.
  - intros (g & Hg & ->). by apply gather_all_return in Hg as ->.
  - intros ->. exists (Ok results). split; [constructor|done].
Qed.

Lemma review_one_raises pre post e res :
  review (map Ok pre ++ Raise e :: map Ok post) res ↔ res = Raise e.
Proof.
  unfold review. split.
  - intros (g & Hg & ->). by apply gather_one_raises in Hg as ->.
  - intros ->. exists (Raise e). split; [by apply gather_one_raises|done].
Qed.

(** What [analyze] lets out: an exception of the statements before the
    [try], or one of the [try] block that [except Exception] does not
    catch. *)
Lemma analyze_raises fmt body e :
  analyze fmt body = Raise e ↔
  fmt = Raise e ∨
  ∃ prompt_text, fmt = Ok prompt_text ∧ body prompt_text = Raise e ∧
                 is_Exception e = false.
Proof.
  unfold analyze. destruct fmt as [p|e0]; simpl.
  - destruct (body p) as [cs|e1] eqn:Hb.
    + split; [done|]. intros [[=]|(p' & [= <-] & Hp & _)]. congruence.
    + destruct (is_Exception e1) eqn:He1.
      * split; [done|]. intros [[=]|(p' & [= <-] & Hp & He)]. congruence.
      * split.
        -- intros [= <-]. right. eauto.
        -- intros [[=]|(p' & [= <-] & Hp & He)]. congruence.
  - split; [intros [= <-]; by left|].
    intros [[= <-]|(p' & [=] & _)]. done.
Qed.

(** C2, as the specification states it, fails: the agent whose
    [prompt.format] raises makes [review] raise, where with an empty list
    in its place [review] returns the comment of the other agent. *)
Lemma raising_agent_fails_review :
  raises_before_try = Raise (OtherException "KeyError") ∧
  review [Ok [null_check "logic"]; Ok []] (Ok [null_check "logic"]) ∧
  ¬ review [Ok [null_check "logic"]; raises_before_try] (Ok [null_check "logic"]) ∧
  ∀ res, review [Ok [null_check "logic"]; raises_before_try] res →
         res = Raise (OtherException "KeyError").
Proof.
  split; [done|]. split.
  { apply (review_all_return [[null_check "logic"]; []]). by vm_compute. }
  assert (∀ res, review [Ok [null_check "logic"]; raises_before_try] res →
                 res = Raise (OtherException "KeyError")) as Hres.
  { intros res. apply (review_one_raises [[null_check "logic"]] []). }
  split; [|exact Hres]. by intros ?%Hres.
Qed.

(** C2, amended: with the other agents returning, an exception that
    leaves the [analyze] call of one agent is what [review] raises
    ([asyncio.gather] hands it on, and no comment is returned); only a
    failure inside the [try] of [analyze] that derives from [Exception] is
    absorbed: [analyze] then returns the empty list and [review] returns
    what it returns for the comments of the other agents alone. *)
Theorem agent_failure_reaches_review (pre post : list (list Comment))
    (fmt : result string) (body : string → result (list Comment)) :
  (∀ e, analyze fmt body = Raise e →
        ∀ res, review (map Ok pre ++ analyze fmt body :: map Ok post) res
               ↔ res = Raise e) ∧
  (∀ prompt_text e,
     fmt = Ok prompt_text → body prompt_text = Raise e → is_Exception e = true →
     analyze fmt body = Ok [] ∧
     ∀ res, review (map Ok pre ++ analyze fmt body :: map Ok post) res
            ↔ res = Ok (review_results (pre ++ post))).
Proof.
  split.
  - intros e -> res. apply review_one_raises.
  - intros p e -> Hb He.
    assert (analyze (Ok p) body = Ok []) as ->.
    { unfold analyze. simpl. by rewrite Hb, He. }
    split; [done|]. intros res.
    change (map Ok pre ++ Ok [] :: map Ok post)
      with (map Ok pre ++ map Ok ([] :: post)).
    rewrite <- map_app, review_all_return.
    unfold review_results. by rewrite merge_skip_empty.
Qed.

Lemma agent_failure_reaches_review_witness :
  raises_inside_try = Ok [] ∧
  review [Ok [null_check "logic"]; raises_inside_try] (Ok [null_check "logic"]).
Proof.
  destruct (agent_failure_reaches_review [[null_check "logic"]] []
              (Ok "prompt") (λ _, Raise (ValueError "JSONDecodeError")))
    as [_ H].
  destruct (H "prompt" (ValueError "JSONDecodeError") eq_refl eq_refl eq_refl)
    as [Ha Hr].
  split; [exact Ha|]. apply Hr. vm_compute. reflexivity.
Defined.

End AgentFailure.

(** * More properties of the parser *)

(** ** The loop, with the lines it has read *)

Lemma for_each_inv_prefix {S X} (P : list X → S → Prop) (body : S → X → result S) :
  (∀ ls st x st', P ls st → body st x = Ok st' → P (ls ++ [x]) st') →
  ∀ xs pre st st', P pre st → for_each body xs st = Ok st' → P (pre ++ xs) st'.
Proof.
  intros Hbody. induction xs as [|x xs IH]; intros pre st st' HP; simpl.
  - intros [= <-]. by rewrite app_nil_r.
  - destruct (body st x) as [st1|e] eqn:Hx; simpl; [|done].
    intros Hrest. rewrite (cons_middle x), app_assoc.
    eapply IH; [|done]. by eapply Hbody.
Qed.

Lemma for_each_returns {S X} (body : S → X → result S) xs :
  (∀ st x, x ∈ xs → ∃ st', body st x = Ok st') →
  ∀ st, ∃ st', for_each body xs st = Ok st'.
Proof.
  induction xs as [|x xs IH]; intros Hbody st; simpl; [by eexists|].
  destruct (Hbody st x) as [st1 ->]; [apply list_elem_of_here|]. simpl.
  apply IH. intros st0 y Hy. apply Hbody. by apply list_elem_of_further.
Qed.

Lemma for_each_raises {S X} (body : S → X → result S) xs st e :
  for_each body xs st = Raise e → ∃ st0 x, x ∈ xs ∧ body st0 x = Raise e.
Proof.
  revert st. induction xs as [|x xs IH]; intros st; simpl; [done|].
  destruct (body st x) as [st1|e1] eqn:Hx; simpl.
  - intros (st0 & y & Hy & Hb)%IH. exists st0, y. split; [|done].
    by apply list_elem_of_further.
  - intros [= <-]. exists st, x. split; [apply list_elem_of_here|done].
Qed.

(** ** The files of the result *)

Section Paths.
Import DiffParser.

Lemma opened_paths_snoc ls l :
  opened_paths (ls ++ [l])
  = opened_paths ls ++
    if opens_file l then [PyStr.strip (PyStr.slice_from 6 l)] else [].
Proof.
  unfold opened_paths. rewrite List.filter_app, map_app. simpl.
  by destruct (opens_file l).
Qed.

Lemma open_paths_step m st line st' :
  step m st line = Ok st' →
  (opens_file line = false ∧ open_paths st' = open_paths st) ∨
  (opens_file line = true ∧
   open_paths st' = map fo_path (st_files st) ++ [PyStr.strip (PyStr.slice_from 6 line)]).
Proof.
  unfold step, opens_file.
  destruct (PyStr.startswith line "diff --git") eqn:Hd; cbn [negb andb].
  { intros [= <-]. left. split; [done|]. unfold open_paths, on_file_marker.
    cbn [st_files current_file].
    destruct (current_file st); rewrite ?map_app, ?app_nil_r; done. }
  destruct (PyStr.startswith line "+++") eqn:Hp; cbn [negb andb].
  { intros [= <-]. unfold on_path_line.
    destruct (String.eqb _ "/dev/null"); cbn [negb]; [by left | by right]. }
  assert (∀ st0 st1, open_hunk m st0 line = Ok st1 → open_paths st1 = open_paths st0)
    as Hopen.
  { intros st0 st1. unfold open_hunk.
    destruct (HunkRe.search line) as [[[[a b] c] d]|]; [|by intros [= <-]].
    destruct (PyStr.int_of_digits m a); simpl; [|done].
    destruct (PyStr.int_of_digits m b); simpl; [|done].
    destruct (PyStr.int_of_digits m c); simpl; [|done].
    destruct (PyStr.int_of_digits m d); simpl; [|done].
    by intros [= <-]. }
  destruct (PyStr.startswith line "@@").
  - intros ->%Hopen. left. split; [done|]. unfold commit_hunk, open_paths.
    destruct (current_hunk st); [|done].
    destruct (current_file st) eqn:Hf; simpl; rewrite ?Hf; done.
  - intros [= <-]. left. split; [done|]. unfold on_change_line.
    destruct (current_hunk st); [|done]. destruct (current_file st) eqn:Hf; [|done].
    destruct (change_of _ _) as [[??]|]; simpl; rewrite ?Hf; done.
Qed.

Lemma open_paths_step_sublist m ls st x st' :
  sublist (open_paths st) (opened_paths ls) → step m st x = Ok st' →
  sublist (open_paths st') (opened_paths (ls ++ [x])).
Proof.
  intros IH Hstep. rewrite opened_paths_snoc.
  destruct (open_paths_step _ _ _ _ Hstep) as [[-> ->]|[-> ->]].
  - by rewrite app_nil_r.
  - apply sublist_app; [|done]. etrans; [|exact IH].
    unfold open_paths. by apply sublist_inserts_r.
Qed.

Lemma open_paths_sublist m s st :
  run m s = Ok st → sublist (open_paths st) (opened_paths (PyStr.split "010" s)).
Proof.
  unfold run. intros Hrun.
  apply (for_each_inv_prefix
           (λ ls st, sublist (open_paths st) (opened_paths ls)) (step m)
           (open_paths_step_sublist m) (PyStr.split "010" s) [] init st); done.
Qed.

(** X1: the paths of the files of the result are, in this order, paths of
    lines of the text that open a file: no file is invented, none is
    reordered and none is listed more often than it is opened. *)
Theorem parsed_paths_follow_the_text m s pd :
  parse_with m s = Ok pd →
  sublist (map path (files pd)) (opened_paths (PyStr.split "010" s)).
Proof.
  unfold parse_with. destruct (run m s) as [st|] eqn:Hrun; simpl; [|done].
  intros [= <-]. simpl. rewrite <- list_fmap_compose.
  pose proof (open_paths_sublist _ _ _ Hrun) as Hsub.
  replace (path ∘ read_file (store st) <$> finish st) with (open_paths st); [done|].
  unfold open_paths, finish.
  destruct (current_file st) as [f|]; [|by rewrite app_nil_r].
  rewrite fmap_app. simpl. by destruct (current_hunk st).
Qed.

Lemma parsed_paths_follow_the_text_witness :
  parse_with PyStr.default_max_str_digits two_files
  = Ok {| files := [ {| path := "f.py"; hunks := [] |};
                     {| path := "g.py";
                        hunks := [ mkHunk 3 2 3 2 [mkChange "add" 3 "c"] ] |} ] |} ∧
  sublist ["f.py"; "g.py"] (opened_paths (PyStr.split "010" two_files)).
Proof.
  split; [vm_compute; reflexivity|].
  apply (parsed_paths_follow_the_text PyStr.default_max_str_digits two_files
           {| files := [ {| path := "f.py"; hunks := [] |};
                         {| path := "g.py";
                            hunks := [ mkHunk 3 2 3 2 [mkChange "add" 3 "c"] ] |} ] |}).
  vm_compute. reflexivity.
Defined.

End Paths.

(** ** Where the hunks come from *)

Section Provenance.
Import DiffParser.

Lemma from_lines_snoc ls x h : from_lines ls h → from_lines (ls ++ [x]) h.
Proof.
  intros [(line & a & b & c & d & Hin & Hrest) Hch]. split.
  - exists line, a, b, c, d. split; [|done]. apply elem_of_app. by left.
  - intros ch (line' & bump & Hin' & Hc)%Hch. exists line', bump.
    split; [|done]. apply elem_of_app. by left.
Qed.

Lemma int_of_digits_value m s v :
  PyStr.int_of_digits m s = Ok v → v = PyStr.digits_value 0 s.
Proof. unfold PyStr.int_of_digits. case_match; [done|]. by intros [= <-]. Qed.

Lemma from_lines_open_hunk m ls st x st' :
  PyStr.startswith x "@@" = true →
  (∀ r h, store st !! r = Some h → from_lines ls h) →
  open_hunk m st x = Ok st' →
  ∀ r h, store st' !! r = Some h → from_lines (ls ++ [x]) h.
Proof.
  intros Hat IH. unfold open_hunk.
  destruct (HunkRe.search x) as [[[[a b] c] d]|] eqn:Hs.
  2:{ intros [= <-] r h Hr. apply from_lines_snoc. by eapply IH. }
  destruct (PyStr.int_of_digits m a) as [va|] eqn:Ha; simpl; [|done].
  destruct (PyStr.int_of_digits m b) as [vb|] eqn:Hb; simpl; [|done].
  destruct (PyStr.int_of_digits m c) as [vc|] eqn:Hc; simpl; [|done].
  destruct (PyStr.int_of_digits m d) as [vd|] eqn:Hd; simpl; [|done].
  intros [= <-] r h. simpl.
  intros [Hr|[_ Hr]]%lookup_app_Some.
  - apply from_lines_snoc. by eapply IH.
  - apply list_lookup_singleton_Some in Hr as [_ <-]. split; simpl.
    + exists x, a, b, c, d. split; [apply elem_of_app; right; apply list_elem_of_here|].
      apply int_of_digits_value in Ha, Hb, Hc, Hd. by subst.
    + by intros ch ?%elem_of_nil.
Qed.

Lemma from_lines_step m ls st x st' :
  (∀ r h, store st !! r = Some h → from_lines ls h) →
  step m st x = Ok st' →
  ∀ r h, store st' !! r = Some h → from_lines (ls ++ [x]) h.
Proof.
  intros IH. unfold step.
  destruct (PyStr.startswith x "diff --git").
  { intros [= <-] r h Hr. apply from_lines_snoc. by eapply IH. }
  destruct (PyStr.startswith x "+++").
  { intros [= <-] r h. unfold on_path_line. case_match; simpl;
      intros Hr; apply from_lines_snoc; by eapply IH. }
  destruct (PyStr.startswith x "@@") eqn:Hat.
  { apply from_lines_open_hunk; [done|].
    unfold commit_hunk. destruct (current_hunk st); [|done].
    by destruct (current_file st). }
  intros [= <-] r h. unfold on_change_line.
  destruct (current_hunk st) as [r0|];
    [|intros Hr; apply from_lines_snoc; by eapply IH].
  destruct (current_file st) as [f0|];
    [|intros Hr; apply from_lines_snoc; by eapply IH].
  destruct (change_of (new_line_num st) x) as [[c bump]|] eqn:Hc;
    [|intros Hr; apply from_lines_snoc; by eapply IH].
  simpl. destruct (decide (r = r0)) as [->|Hne].
  - rewrite list_lookup_alter_eq.
    destruct (store st !! r0) as [h0|] eqn:Hh0; simpl; [|done].
    intros [= <-]. destruct (from_lines_snoc _ x _ (IH _ _ Hh0)) as [Hhead Hch].
    split; [exact Hhead|]. simpl. intros ch [Hin|Hin]%elem_of_app; [by apply Hch|].
    apply list_elem_of_singleton in Hin as ->. exists x, bump.
    split; [apply elem_of_app; right; apply list_elem_of_here|].
    destruct (change_of_spec _ _ _ _ Hc) as [-> _]. done.
  - rewrite list_lookup_alter_ne by done.
    intros Hr. apply from_lines_snoc. by eapply IH.
Qed.

Lemma from_lines_run m s st :
  run m s = Ok st →
  ∀ r h, store st !! r = Some h → from_lines (PyStr.split "010" s) h.
Proof.
  unfold run. intros Hrun.
  apply (for_each_inv_prefix
           (λ ls st, ∀ r h, store st !! r = Some h → from_lines ls h) (step m)
           (from_lines_step m) (PyStr.split "010" s) [] init st); [|done].
  intros r h. simpl. by rewrite lookup_nil.
Qed.

(** X2: nothing in the result is invented: the numbers of every hunk are
    the groups of a line of the text that starts with [@@], and every
    change of the hunk has the kind and the content that the loop gives
    to some line of the text (the line without its first character). *)
Theorem parsed_hunks_come_from_lines m s pd f h :
  parse_with m s = Ok pd → f ∈ files pd → h ∈ hunks f →
  from_lines (PyStr.split "010" s) h.
Proof.
  intros Hp Hf Hh.
  destruct (parse_with_hunk_in_store _ _ _ _ _ Hp Hf Hh) as (st & r & Hrun & Hr).
  by eapply from_lines_run.
Qed.

Lemma parsed_hunks_come_from_lines_witness :
  parse_with PyStr.default_max_str_digits scenario_A_in_file
  = Ok {| files := [ {| path := "f.py"; hunks := [hunk_A] |} ] |} ∧
  from_lines (PyStr.split "010" scenario_A_in_file) hunk_A.
Proof.
  split; [vm_compute; reflexivity|].
  apply (parsed_hunks_come_from_lines PyStr.default_max_str_digits
           scenario_A_in_file
           {| files := [ {| path := "f.py"; hunks := [hunk_A] |} ] |}
           {| path := "f.py"; hunks := [hunk_A] |} hunk_A).
  - vm_compute. reflexivity.
  - simpl. apply list_elem_of_here.
  - simpl. apply list_elem_of_here.
Defined.

End Provenance.

(** ** When the parser raises *)

Section RaisingMore.
Import DiffParser.

Lemma lit_length p s r : HunkRe.lit p s = Some r → (String.length r ≤ String.length s)%nat.
Proof.
  revert s. induction p as [|a p IH]; intros [|b s]; simpl; try done.
  - by intros [= <-].
  - by intros [= <-].
  - destruct (Ascii.eqb a b); [|done]. intros ?%IH. lia.
Qed.

Lemma span_digits_length s d r :
  HunkRe.span_digits s = (d, r) →
  (String.length d + String.length r = String.length s)%nat.
Proof.
  revert d r. induction s as [|c s IH]; intros d r; simpl.
  - by intros [= <- <-].
  - destruct (HunkRe.is_digit c); [|by intros [= <- <-]].
    destruct (HunkRe.span_digits s) as [d' r']. intros [= <- <-].
    simpl. specialize (IH _ _ eq_refl). lia.
Qed.

Lemma digits1_length s d r :
  HunkRe.digits1 s = Some (d, r) →
  (String.length d + String.length r = String.length s)%nat.
Proof.
  unfold HunkRe.digits1. destruct (HunkRe.span_digits s) as [d' r'] eqn:Hs.
  destruct d'; [done|]. intros [= <- <-]. by apply span_digits_length.
Qed.

Lemma match_here_lengths s a b c d :
  HunkRe.match_here s = Some (a, b, c, d) →
  Forall (λ g, (String.length g ≤ String.length s)%nat) [a; b; c; d].
Proof.
  unfold HunkRe.match_here. intros H.
  destruct (HunkRe.lit "@@ -" s) as [r0|] eqn:E0; cbn [mbind option_bind] in H; [|done].
  destruct (HunkRe.digits1 r0) as [[a' r1]|] eqn:E1; cbn [mbind option_bind] in H; [|done].
  destruct (HunkRe.lit "," r1) as [r2|] eqn:E2; cbn [mbind option_bind] in H; [|done].
  destruct (HunkRe.digits1 r2) as [[b' r3]|] eqn:E3; cbn [mbind option_bind] in H; [|done].
  destruct (HunkRe.lit " +" r3) as [r4|] eqn:E4; cbn [mbind option_bind] in H; [|done].
  destruct (HunkRe.digits1 r4) as [[c' r5]|] eqn:E5; cbn [mbind option_bind] in H; [|done].
  destruct (HunkRe.lit "," r5) as [r6|] eqn:E6; cbn [mbind option_bind] in H; [|done].
  destruct (HunkRe.digits1 r6) as [[d' r7]|] eqn:E7; cbn [mbind option_bind] in H; [|done].
  destruct (HunkRe.lit " @@" r7) as [r8|] eqn:E8; cbn [mbind option_bind] in H; [|done].
  injection H as <- <- <- <-.
  apply lit_length in E0, E2, E4, E6. apply digits1_length in E1, E3, E5, E7.
  repeat constructor; lia.
Qed.

Lemma search_lengths s a b c d :
  HunkRe.search s = Some (a, b, c, d) →
  Forall (λ g, (String.length g ≤ String.length s)%nat) [a; b; c; d].
Proof.
  induction s as [|x s IH]; simpl.
  - done.
  - destruct (HunkRe.match_here (String x s)) as [g|] eqn:Hm.
    + intros [= ->]. by apply (match_here_lengths (String x s)).
    + intros H%IH. eapply Forall_impl; [exact H|]. simpl. intros; lia.
Qed.

Lemma int_of_digits_raises m s e :
  PyStr.int_of_digits m s = Raise e →
  e = ValueError "Exceeds the limit for integer string conversion" ∧
  (0 < m < String.length s)%nat.
Proof.
  unfold PyStr.int_of_digits.
  destruct (0 <? m)%nat eqn:H0; simpl; [|done].
  destruct (m <? String.length s)%nat eqn:H1; [|done].
  intros [= <-]. apply Nat.ltb_lt in H0, H1. done.
Qed.

(** The only statement of the loop that can raise is the conversion of
    the groups of a header. *)
Lemma step_raises m st line e :
  step m st line = Raise e →
  e = ValueError "Exceeds the limit for integer string conversion" ∧
  PyStr.startswith line "@@" = true ∧
  ∃ a b c d g, HunkRe.search line = Some (a, b, c, d) ∧ g ∈ [a; b; c; d] ∧
               (0 < m < String.length g)%nat.
Proof.
  unfold step. repeat case_match; try done.
  unfold open_hunk.
  destruct (HunkRe.search line) as [[[[a b] c] d]|]; [|done].
  intros Hr. assert (∃ g, g ∈ [a; b; c; d] ∧ PyStr.int_of_digits m g = Raise e)
    as (g & Hg & Hge).
  { destruct (PyStr.int_of_digits m a) eqn:Ha; simpl in Hr;
      [|exists a; split; [set_solver|congruence]].
    destruct (PyStr.int_of_digits m b) eqn:Hb; simpl in Hr;
      [|exists b; split; [set_solver|congruence]].
    destruct (PyStr.int_of_digits m c) eqn:Hc; simpl in Hr;
      [|exists c; split; [set_solver|congruence]].
    destruct (PyStr.int_of_digits m d) eqn:Hd; simpl in Hr;
      [done|exists d; split; [set_solver|congruence]]. }
  apply int_of_digits_raises in Hge as [-> ?].
  split; [done|]. split; [done|]. by exists a, b, c, d, g.
Qed.

(** X3: a text none of whose lines is longer than the limit on integer
    strings (4300 characters by default) is parsed without an exception. *)
Theorem parse_returns_within_limit m s :
  lines_within m s = true → ∃ pd, parse_with m s = Ok pd.
Proof.
  unfold lines_within. intros H. apply orb_prop in H as [H|H].
  { apply Nat.eqb_eq in H as ->. apply parse_with_unlimited. }
  unfold parse_with, run.
  destruct (for_each_returns (step m) (PyStr.split "010" s)) with (st := init)
    as [st ->]; [|by eexists].
  intros st line Hline.
  destruct (step m st line) as [st'|e] eqn:Hstep; [by eexists|].
  apply step_raises in Hstep as (_ & _ & a & b & c & d & g & Hs & Hg & Hlen).
  apply search_lengths in Hs. rewrite Forall_forall in Hs. specialize (Hs _ Hg).
  rewrite forallb_forall in H. apply list_elem_of_In in Hline.
  specialize (H _ Hline). apply Nat.leb_le in H. lia.
Qed.

Lemma parse_returns_within_limit_witness :
  lines_within PyStr.default_max_str_digits two_files = true ∧
  ∃ pd, parse_with PyStr.default_max_str_digits two_files = Ok pd.
Proof.
  split; [vm_compute; reflexivity|].
  apply (parse_returns_within_limit PyStr.default_max_str_digits two_files).
  vm_compute. reflexivity.
Defined.

(** X4: when [parse] raises, the exception is the [ValueError] of [int], the
    limit on integer strings is on, and some line of the text that starts
    with [@@] matches the pattern with a group of more digits than the
    limit. *)
Theorem parse_raises_only_on_long_integers m s e :
  parse_with m s = Raise e →
  e = ValueError "Exceeds the limit for integer string conversion" ∧
  ∃ line a b c d g,
    line ∈ PyStr.split "010" s ∧ PyStr.startswith line "@@" = true ∧
    HunkRe.search line = Some (a, b, c, d) ∧ g ∈ [a; b; c; d] ∧
    (0 < m < String.length g)%nat.
Proof.
  unfold parse_with, run.
  destruct (for_each (step m) (PyStr.split "010" s) init) as [st|e'] eqn:Hrun;
    simpl; [done|].
  intros [= ->]. apply for_each_raises in Hrun as (st0 & line & Hline & Hstep).
  apply step_raises in Hstep as (-> & Hat & a & b & c & d & g & Hs & Hg & Hlen).
  split; [done|]. by exists line, a, b, c, d, g.
Qed.

Lemma parse_raises_only_on_long_integers_witness :
  parse_with PyStr.default_max_str_digits long_header
  = Raise (ValueError "Exceeds the limit for integer string conversion") ∧
  ∃ line a b c d g,
    line ∈ PyStr.split "010" long_header ∧ PyStr.startswith line "@@" = true ∧
    HunkRe.search line = Some (a, b, c, d) ∧ g ∈ [a; b; c; d] ∧
    (0 < PyStr.default_max_str_digits < String.length g)%nat.
Proof.
  split; [vm_compute; reflexivity|].
  apply (parse_raises_only_on_long_integers PyStr.default_max_str_digits long_header
           (ValueError "Exceeds the limit for integer string conversion")).
  vm_compute. reflexivity.
Defined.

End RaisingMore.

(** ** Text before the first marker *)

Section LeadingText.
Import DiffParser.

Lemma split_cons sep c s :
  PyStr.split sep (String c s)
  = if Ascii.eqb c sep then EmptyString :: PyStr.split sep s
    else match PyStr.split sep s with
         | [] => [String c EmptyString]
         | w :: ws => String c w :: ws
         end.
Proof. done. Qed.

Lemma split_nonempty sep s : PyStr.split sep s ≠ [].
Proof.
  destruct s as [|c s]; [done|]. rewrite split_cons.
  destruct (Ascii.eqb c sep); [done|]. by destruct (PyStr.split sep s).
Qed.

(** The lines of two texts joined by a newline are the lines of the
    first followed by the lines of the second. *)
Lemma split_app sep a b :
  PyStr.split sep (a +:+ String sep b) = PyStr.split sep a ++ PyStr.split sep b.
Proof.
  induction a as [|c a IH].
  - simpl. by rewrite Ascii.eqb_refl.
  - change (String c a +:+ String sep b) with (String c (a +:+ String sep b)).
    rewrite !split_cons, IH. destruct (Ascii.eqb c sep); [done|].
    pose proof (split_nonempty sep a). by destruct (PyStr.split sep a).
Qed.

(** A line that is no marker leaves the initial state as it is. *)
Lemma step_init_non_marker m line :
  is_marker line = false → step m init line = Ok init.
Proof.
  unfold is_marker, step. intros H.
  apply orb_false_elim in H as [H H3]. apply orb_false_elim in H as [H1 H2].
  by rewrite H1, H2, H3.
Qed.

Lemma for_each_init_non_markers m ls :
  forallb (λ l, negb (is_marker l)) ls = true →
  for_each (step m) ls init = Ok init.
Proof.
  induction ls as [|l ls IH]; simpl; [done|].
  intros [Hl Hls]%andb_prop. apply negb_true_iff in Hl.
  rewrite step_init_non_marker by done. simpl. by apply IH.
Qed.

(** X5: lines before the first line that starts with [diff --git], [+++] or
    [@@] (a commit message, the headers of a mailed patch) do not change
    the result. *)
Theorem leading_text_is_ignored m junk s :
  forallb (λ l, negb (is_marker l)) (PyStr.split "010" junk) = true →
  parse_with m (junk +:+ String "010" s) = parse_with m s.
Proof.
  intros H. unfold parse_with, run.
  by rewrite split_app, for_each_app, for_each_init_non_markers.
Qed.

Lemma leading_text_is_ignored_witness :
  forallb (λ l, negb (is_marker l))
    (PyStr.split "010" mail_header) = true ∧
  parse_with PyStr.default_max_str_digits
    (mail_header +:+ String "010" two_files)
  = parse_with PyStr.default_max_str_digits two_files.
Proof.
  split; [vm_compute; reflexivity|].
  apply (leading_text_is_ignored PyStr.default_max_str_digits
           mail_header two_files).
  vm_compute. reflexivity.
Defined.

End LeadingText.

(** ** Printing a header and reading it back *)

Section HeaderRoundTrip.
Import DiffParser.

Lemma all_digits_uint d : all_digits (NilEmpty.string_of_uint d) = true.
Proof. induction d; simpl; auto. Qed.

Lemma digits_value_acc d acc :
  PyStr.digits_value (Z.pos acc) (NilEmpty.string_of_uint d)
  = Z.pos (Pos.of_uint_acc d acc).
Proof.
  revert acc. induction d; intros acc; simpl; [done|..];
    rewrite <- IHd; f_equal; unfold PyStr.digit_value; simpl; lia.
Qed.

Lemma digits_value_uint d :
  PyStr.digits_value 0 (NilEmpty.string_of_uint d) = Z.of_N (Pos.of_uint d).
Proof.
  induction d; simpl; [done|exact IHd|..];
    apply (digits_value_acc d).
Qed.

(** [int(str(n)) = n] for the non-negative integers, and [str(n)] is a
    non-empty run of digits. *)
Lemma str_of_int_digits n :
  0 ≤ n →
  all_digits (PyStr.str_of_int n) = true ∧ PyStr.str_of_int n ≠ EmptyString ∧
  PyStr.digits_value 0 (PyStr.str_of_int n) = n.
Proof.
  unfold PyStr.str_of_int. destruct n as [|p|p]; [done| |lia]. intros _. simpl.
  pose proof (DecimalPos.Unsigned.to_uint_nonnil p) as Hnil.
  pose proof (DecimalPos.Unsigned.of_to p) as Hof.
  unfold NilZero.string_of_uint.
  destruct (Pos.to_uint p) as [|d|d|d|d|d|d|d|d|d|d] eqn:Hp; [done|..];
    (split; [apply all_digits_uint|]; split; [done|]);
    rewrite digits_value_uint, Hof; done.
Qed.

Lemma span_digits_app d r :
  all_digits d = true → no_digit_ahead r = true →
  HunkRe.span_digits (d +:+ r) = (d, r).
Proof.
  intros Hd Hr. induction d as [|c d IH]; simpl.
  - destruct r as [|c r]; [done|]. simpl in *. by destruct (HunkRe.is_digit c).
  - simpl in Hd. apply andb_prop in Hd as [-> Hd]. by rewrite IH.
Qed.

Lemma digits1_app d r :
  all_digits d = true → d ≠ EmptyString → no_digit_ahead r = true →
  HunkRe.digits1 (d +:+ r) = Some (d, r).
Proof.
  intros Hd Hne Hr. unfold HunkRe.digits1. rewrite span_digits_app by done.
  by destruct d.
Qed.

Lemma lit_app p s : HunkRe.lit p (p +:+ s) = Some s.
Proof. induction p as [|a p IH]; simpl; [done|]. by rewrite Ascii.eqb_refl. Qed.

Lemma search_here s g : HunkRe.match_here s = Some g → HunkRe.search s = Some g.
Proof.
  intros H. destruct s as [|x s]; [by vm_compute in H|].
  cbn [HunkRe.search]. by rewrite H.
Qed.

Lemma search_header_line a b c d tail :
  0 ≤ a → 0 ≤ b → 0 ≤ c → 0 ≤ d →
  HunkRe.search (header_line a b c d tail)
  = Some (PyStr.str_of_int a, PyStr.str_of_int b, PyStr.str_of_int c,
          PyStr.str_of_int d).
Proof.
  intros Ha Hb Hc Hd.
  destruct (str_of_int_digits a Ha) as (Ha1 & Ha2 & _).
  destruct (str_of_int_digits b Hb) as (Hb1 & Hb2 & _).
  destruct (str_of_int_digits c Hc) as (Hc1 & Hc2 & _).
  destruct (str_of_int_digits d Hd) as (Hd1 & Hd2 & _).
  apply search_here.
  { unfold HunkRe.match_here, header_line.
    rewrite lit_app. cbn [mbind option_bind].
    rewrite digits1_app by done. cbn [mbind option_bind].
    rewrite lit_app. cbn [mbind option_bind].
    rewrite digits1_app by done. cbn [mbind option_bind].
    rewrite lit_app. cbn [mbind option_bind].
    rewrite digits1_app by done. cbn [mbind option_bind].
    rewrite lit_app. cbn [mbind option_bind].
    rewrite digits1_app by done. cbn [mbind option_bind].
    by rewrite lit_app. }
Qed.

(** X6: a header printed from four non-negative integers, with any text
    after it, is read back to these integers: the iteration on that line
    makes the hunk with these four numbers and no change current and sets
    the cursor to the third. *)
Theorem header_round_trip m st a b c d tail :
  0 ≤ a → 0 ≤ b → 0 ≤ c → 0 ≤ d →
  Forall (convertible m)
    [PyStr.str_of_int a; PyStr.str_of_int b; PyStr.str_of_int c; PyStr.str_of_int d] →
  step m st (header_line a b c d tail)
  = Ok {| st_files := st_files (commit_hunk st);
          current_file := current_file (commit_hunk st);
          current_hunk := Some (length (store (commit_hunk st)));
          new_line_num := c;
          store := store (commit_hunk st) ++ [mkHunk a b c d []] |}.
Proof.
  intros Ha Hb Hc Hd Hconv.
  rewrite step_header by done.
  unfold open_hunk. rewrite search_header_line by done.
  apply Forall_cons in Hconv as [Ca Hconv]. apply Forall_cons in Hconv as [Cb Hconv].
  apply Forall_cons in Hconv as [Cc Hconv]. apply Forall_cons in Hconv as [Cd _].
  rewrite !int_of_digits_convertible by done. simpl.
  destruct (str_of_int_digits a Ha) as (_ & _ & ->).
  destruct (str_of_int_digits b Hb) as (_ & _ & ->).
  destruct (str_of_int_digits c Hc) as (_ & _ & ->).
  destruct (str_of_int_digits d Hd) as (_ & _ & ->).
  done.
Qed.

Lemma header_round_trip_witness :
  step PyStr.default_max_str_digits state_ab (header_line 10 5 10 7 " def login():")
  = Ok {| st_files := [];
          current_file := Some {| fo_path := "f.py"; fo_hunks := [0%nat] |};
          current_hunk := Some 1%nat;
          new_line_num := 10;
          store := [hunk_ab; mkHunk 10 5 10 7 []] |}.
Proof.
  apply (header_round_trip PyStr.default_max_str_digits state_ab 10 5 10 7
           " def login():"); [lia..|].
  repeat constructor; right; vm_compute; lia.
Defined.

End HeaderRoundTrip.

(** * The client: from the URL of a pull request to the request *)

Section PrUrl.

Lemma span_segment_app d r :
  char_free "/" d = true →
  PrUrlRe.span_segment (d +:+ String "/" r) = (d, String "/" r).
Proof.
  intros Hd. induction d as [|c d IH]; simpl; [done|].
  simpl in Hd. apply andb_prop in Hd as [Hc Hd]. unfold PrUrlRe.is_slash.
  apply negb_true_iff in Hc. by rewrite Hc, IH.
Qed.

Lemma segment1_app d r :
  char_free "/" d = true → d ≠ EmptyString →
  PrUrlRe.segment1 (d +:+ "/" +:+ r) = Some (d, "/" +:+ r).
Proof.
  intros Hd Hne. unfold PrUrlRe.segment1.
  change ("/" +:+ r) with (String "/" r). rewrite span_segment_app by done.
  by destruct d.
Qed.

Lemma url_search_here s g : PrUrlRe.match_here s = Some g → PrUrlRe.search s = Some g.
Proof.
  intros H. destruct s as [|x s]; [by vm_compute in H|].
  cbn [PrUrlRe.search]. by rewrite H.
Qed.

(** The search passes over a prefix in which the pattern cannot start. *)
Lemma url_search_skip pre u :
  char_free "g" pre = true → PrUrlRe.search (pre +:+ u) = PrUrlRe.search u.
Proof.
  intros Hpre. induction pre as [|c pre IH]; [done|].
  simpl in Hpre. apply andb_prop in Hpre as [Hc Hpre]. apply negb_true_iff in Hc.
  change (String c pre +:+ u) with (String c (pre +:+ u)).
  cbn [PrUrlRe.search]. unfold PrUrlRe.match_here at 1. cbn [HunkRe.lit].
  rewrite Ascii.eqb_sym, Hc. cbn [mbind option_bind]. by apply IH.
Qed.

(** X7: for a URL that has, after a prefix without the letter [g] (such as
    [https://]), the form [github.com/OWNER/REPO/pull/N] with a non-empty
    owner and repository without slash and a non-empty number, followed
    by anything that is no digit, [fetch_pr_diff] requests exactly
    [https://api.github.com/repos/OWNER/REPO/pulls/N] and returns or
    raises what that request does. *)
Theorem fetch_requests_the_pull_of_the_url token get pre owner repo n rest :
  char_free "g" pre = true →
  char_free "/" owner = true → owner ≠ EmptyString →
  char_free "/" repo = true → repo ≠ EmptyString →
  all_digits n = true → n ≠ EmptyString → no_digit_ahead rest = true →
  GitHubClient.fetch_pr_diff token get
    (pre +:+ "github.com/" +:+ owner +:+ "/" +:+ repo +:+ "/pull/" +:+ n +:+ rest)
  = get ("https://api.github.com/repos/" +:+ owner +:+ "/" +:+ repo +:+ "/pulls/" +:+ n)
        (GitHubClient.headers token).
Proof.
  intros Hpre Ho Ho' Hr Hr' Hn Hn' Hrest.
  unfold GitHubClient.fetch_pr_diff.
  rewrite url_search_skip by done.
  rewrite (url_search_here _ (owner, repo, n)); [done|].
  unfold PrUrlRe.match_here.
  rewrite lit_app. cbn [mbind option_bind].
  rewrite (segment1_app owner) by done. cbn [mbind option_bind].
  rewrite (lit_app "/"). cbn [mbind option_bind].
  change (repo +:+ "/pull/" +:+ n +:+ rest)
    with (repo +:+ "/" +:+ "pull/" +:+ n +:+ rest).
  rewrite (segment1_app repo) by done. cbn [mbind option_bind].
  change ("/" +:+ "pull/" +:+ n +:+ rest) with ("/pull/" +:+ n +:+ rest).
  rewrite (lit_app "/pull/"). cbn [mbind option_bind].
  by rewrite digits1_app.
Qed.

Lemma fetch_requests_the_pull_of_the_url_witness :
  GitHubClient.fetch_pr_diff None (λ url _, Ok url)
    "https://github.com/tiangolo/fastapi/pull/10000/files"
  = Ok "https://api.github.com/repos/tiangolo/fastapi/pulls/10000".
Proof.
  apply (fetch_requests_the_pull_of_the_url None (λ url _, Ok url)
           "https://" "tiangolo" "fastapi" "10000" "/files"); done.
Defined.

Lemma contains_unfold sub s :
  PySub.contains sub s
  = PyStr.startswith s sub ||
    match s with EmptyString => false | String _ s' => PySub.contains sub s' end.
Proof. by destruct s. Qed.

Lemma startswith_app p s : PyStr.startswith (p +:+ s) p = true.
Proof. induction p as [|a p IH]; simpl; [done|]. by rewrite Ascii.eqb_refl. Qed.

Lemma contains_app sub x y : PySub.contains sub (x +:+ sub +:+ y) = true.
Proof.
  induction x as [|c x IH].
  - change ("" +:+ sub +:+ y) with (sub +:+ y).
    by rewrite contains_unfold, startswith_app.
  - change (String c x +:+ sub +:+ y) with (String c (x +:+ sub +:+ y)).
    rewrite contains_unfold, IH. apply orb_true_r.
Qed.

Lemma contains_further sub c s :
  PySub.contains sub s = true → PySub.contains sub (String c s) = true.
Proof. intros H. rewrite contains_unfold, H. apply orb_true_r. Qed.

Lemma lit_Some p s r : HunkRe.lit p s = Some r → s = p +:+ r.
Proof.
  revert s. induction p as [|a p IH]; intros [|b s]; simpl; try done.
  - by intros [= <-].
  - by intros [= <-].
  - destruct (Ascii.eqb_spec a b) as [->|]; [|done]. by intros ->%IH.
Qed.

Lemma span_segment_Some s d r : PrUrlRe.span_segment s = (d, r) → s = d +:+ r.
Proof.
  revert d r. induction s as [|c s IH]; intros d r; simpl.
  - by intros [= <- <-].
  - destruct (PrUrlRe.is_slash c); [by intros [= <- <-]|].
    destruct (PrUrlRe.span_segment s) as [d' r']. intros [= <- <-].
    simpl. by rewrite (IH _ _ eq_refl).
Qed.

Lemma segment1_Some s d r : PrUrlRe.segment1 s = Some (d, r) → s = d +:+ r.
Proof.
  unfold PrUrlRe.segment1. destruct (PrUrlRe.span_segment s) as [d' r'] eqn:Hs.
  destruct d'; [done|]. intros [= <- <-]. by apply span_segment_Some.
Qed.

Lemma append_assoc a b c : (a +:+ b) +:+ c = a +:+ b +:+ c.
Proof.
  induction a as [|x a IH]; [done|].
  change (String x ((a +:+ b) +:+ c) = String x (a +:+ b +:+ c)). by rewrite IH.
Qed.

Lemma url_match_here_contains s g :
  PrUrlRe.match_here s = Some g →
  PySub.contains "github.com/" s = true ∧ PySub.contains "/pull/" s = true.
Proof.
  unfold PrUrlRe.match_here. intros H.
  destruct (HunkRe.lit "github.com/" s) as [r0|] eqn:E0; cbn [mbind option_bind] in H; [|done].
  destruct (PrUrlRe.segment1 r0) as [[o r1]|] eqn:E1; cbn [mbind option_bind] in H; [|done].
  destruct (HunkRe.lit "/" r1) as [r2|] eqn:E2; cbn [mbind option_bind] in H; [|done].
  destruct (PrUrlRe.segment1 r2) as [[rp r3]|] eqn:E3; cbn [mbind option_bind] in H; [|done].
  destruct (HunkRe.lit "/pull/" r3) as [r4|] eqn:E4; cbn [mbind option_bind] in H; [|done].
  apply lit_Some in E0, E2, E4. apply segment1_Some in E1, E3. subst.
  split.
  - apply (contains_app "github.com/" "").
  - replace ("github.com/" +:+ o +:+ "/" +:+ rp +:+ "/pull/" +:+ r4)
      with (("github.com/" +:+ o +:+ "/" +:+ rp) +:+ "/pull/" +:+ r4)
      by (by rewrite !append_assoc).
    apply contains_app.
Qed.

Lemma url_search_contains s g :
  PrUrlRe.search s = Some g →
  PySub.contains "github.com/" s = true ∧ PySub.contains "/pull/" s = true.
Proof.
  induction s as [|c s IH]; [done|].
  cbn [PrUrlRe.search].
  destruct (PrUrlRe.match_here (String c s)) as [g'|] eqn:Hm.
  - intros _. by eapply url_match_here_contains.
  - intros [H1 H2]%IH. split; by apply contains_further.
Qed.

(** X8: a URL in which [github.com/] or [/pull/] does not occur is refused
    with [ValueError] before any request is made, whatever the network
    would have answered. *)
Theorem fetch_refuses_other_urls token get pr_url :
  PySub.contains "github.com/" pr_url && PySub.contains "/pull/" pr_url = false →
  GitHubClient.fetch_pr_diff token get pr_url
  = Raise (ValueError "Invalid GitHub PR URL").
Proof.
  intros H. unfold GitHubClient.fetch_pr_diff.
  destruct (PrUrlRe.search pr_url) as [[[o r] n]|] eqn:Hs; [|done].
  apply url_search_contains in Hs as [H1 H2]. by rewrite H1, H2 in H.
Qed.

Lemma fetch_refuses_other_urls_witness :
  GitHubClient.fetch_pr_diff None (λ url _, Ok url)
    "https://gitlab.com/tiangolo/fastapi/pull/10000"
  = Raise (ValueError "Invalid GitHub PR URL").
Proof.
  apply (fetch_refuses_other_urls None (λ url _, Ok url)
           "https://gitlab.com/tiangolo/fastapi/pull/10000").
  vm_compute. reflexivity.
Defined.

End PrUrl.

(** * The agent *)

(** ** The diff as the model is shown it *)

Section FormatDiff.
Import Analyze.











End FormatDiff.

(** ** The answer of the model: markdown fences *)

Section CleanMarkdown.
Import Analyze.

Lemma split_from_nonempty sep k s : PySub.split_from sep k s ≠ [].
Proof.
  revert k. induction s as [|c s IH]; intros k; [done|]. simpl.
  destruct k as [|k]; [|apply IH].
  destruct (PyStr.startswith (String c s) sep); [done|].
  by destruct (PySub.split_from sep 0 s).
Qed.

Lemma split_from_0 sep c s :
  PySub.split_from sep 0 (String c s)
  = if PyStr.startswith (String c s) sep
    then EmptyString :: PySub.split_from sep (String.length sep - 1) s
    else match PySub.split_from sep 0 s with
         | [] => [String c EmptyString]
         | w :: ws => String c w :: ws
         end.
Proof. done. Qed.

(** A string in which a non-empty separator occurs splits into at least
    two pieces. *)
Lemma contains_split sep s :
  sep ≠ EmptyString → PySub.contains sep s = true →
  (2 ≤ length (PySub.split sep s))%nat.
Proof.
  intros Hsep. unfold PySub.split. induction s as [|c s IH].
  - destruct sep; [done|]. discriminate.
  - rewrite contains_unfold, split_from_0.
    destruct (PyStr.startswith (String c s) sep); simpl.
    + intros _. pose proof (split_from_nonempty sep (String.length sep - 1) s).
      destruct (PySub.split_from sep (String.length sep - 1) s); [done|]. simpl. lia.
    + intros H%IH. destruct (PySub.split_from sep 0 s); simpl in *; lia.
Qed.

Lemma item_returns {A} (l : list A) i :
  (i < length l)%nat → ∃ x, PySub.item l i = Ok x.
Proof.
  intros H. unfold PySub.item.
  destruct (lookup_lt_is_Some_2 l i H) as [x ->]. by eexists.
Qed.

Lemma startswith_prefix s p q :
  PyStr.startswith s (p +:+ q) = true → PyStr.startswith s p = true.
Proof.
  revert s. induction p as [|a p IH]; intros s; [done|].
  destruct s as [|b s]; [done|].
  change (String a p +:+ q) with (String a (p +:+ q)). rewrite !startswith_cons.
  intros [-> H]%andb_prop. simpl. by apply IH.
Qed.

Lemma contains_prefix s p q :
  PySub.contains (p +:+ q) s = true → PySub.contains p s = true.
Proof.
  induction s as [|c s IH].
  - rewrite !contains_unfold, !orb_false_r. apply startswith_prefix.
  - rewrite !(contains_unfold _ (String c s)). intros [H|H]%orb_prop.
    + by rewrite (startswith_prefix _ _ _ H).
    + rewrite (IH H). apply orb_true_r.
Qed.

(** X11: the indexing of the pieces never fails, and an answer without three
    backticks in a row is passed on as it is. *)
Theorem clean_markdown_never_raises content :
  (∃ cleaned, clean_markdown content = Ok cleaned) ∧
  (PySub.contains "```" content = false → clean_markdown content = Ok content).
Proof.
  assert (∀ sep s, sep ≠ EmptyString → PySub.contains sep s = true →
            ∃ cleaned,
              (let! rest := PySub.item (PySub.split sep s) 1 in
               PySub.item (PySub.split "```" rest) 0) = Ok cleaned) as Hfence.
  { intros sep s Hsep Hc.
    destruct (item_returns (PySub.split sep s) 1) as [rest ->];
      [by apply contains_split|]. simpl.
    apply item_returns. pose proof (split_from_nonempty "```" 0 rest).
    unfold PySub.split. destruct (PySub.split_from "```" 0 rest); [done|]. simpl. lia. }
  split.
  - unfold clean_markdown.
    destruct (PySub.contains "```json" content) eqn:H7; [by apply Hfence|].
    destruct (PySub.contains "```" content) eqn:H3; [by apply Hfence|].
    by eexists.
  - intros H3. unfold clean_markdown. rewrite H3.
    destruct (PySub.contains "```json" content) eqn:H7; [|done].
    apply (contains_prefix content "```" "json") in H7. congruence.
Qed.


(** Pieces without a backtick, around separators that start with one. *)

Lemma char_free_cons c a s :
  char_free c (String a s) = true → Ascii.eqb a c = false ∧ char_free c s = true.
Proof. simpl. intros [H1 H2]%andb_prop. by apply negb_true_iff in H1. Qed.

Lemma startswith_free_head t s p :
  char_free backtick t = true → t ≠ EmptyString →
  PyStr.startswith (t +:+ s) (String backtick p) = false.
Proof.
  intros Ht Hne. destruct t as [|c t]; [done|].
  apply char_free_cons in Ht as [Hc _].
  change (String c t +:+ s) with (String c (t +:+ s)).
  by rewrite startswith_cons, Ascii.eqb_sym, Hc.
Qed.

Lemma split_from_free sep t s :
  char_free backtick t = true →
  PySub.split_from (String backtick sep) 0 (t +:+ s)
  = match PySub.split_from (String backtick sep) 0 s with
    | [] => [t]
    | w :: ws => (t +:+ w) :: ws
    end.
Proof.
  intros Ht. induction t as [|c t IH].
  - change ("" +:+ s) with s.
    pose proof (split_from_nonempty (String backtick sep) 0 s).
    by destruct (PySub.split_from (String backtick sep) 0 s).
  - pose proof Ht as [Hc Ht']%char_free_cons.
    change (String c t +:+ s) with (String c (t +:+ s)).
    rewrite split_from_0, startswith_cons, Ascii.eqb_sym, Hc. simpl.
    rewrite (IH Ht').
    by destruct (PySub.split_from (String backtick sep) 0 s).
Qed.

Lemma split_from_skip sep t s :
  PySub.split_from sep (String.length t) (t +:+ s) = PySub.split_from sep 0 s.
Proof. induction t as [|c t IH]; [by destruct s|]. exact IH. Qed.

Lemma split_from_sep a sep s :
  PySub.split_from (String a sep) 0 (String a sep +:+ s)
  = EmptyString :: PySub.split_from (String a sep) 0 s.
Proof.
  change (String a sep +:+ s) with (String a (sep +:+ s)).
  rewrite split_from_0.
  change (String a (sep +:+ s)) with (String a sep +:+ s).
  rewrite startswith_app. f_equal.
  replace (String.length (String a sep) - 1)%nat with (String.length sep)
    by (simpl; lia).
  apply split_from_skip.
Qed.

Lemma split_from_free_only sep t :
  char_free backtick t = true →
  PySub.split_from (String backtick sep) 0 t = [t].
Proof.
  intros Ht. induction t as [|c t IH]; [done|].
  pose proof Ht as [Hc Ht']%char_free_cons.
  by rewrite split_from_0, startswith_cons, Ascii.eqb_sym, Hc, (IH Ht').
Qed.

Lemma append_nil_r s : s +:+ "" = s.
Proof.
  induction s as [|c s IH]; [done|].
  change (String c (s +:+ "") = String c s). by rewrite IH.
Qed.

(** Three pieces without backticks, with [```] between them, are the
    pieces of the split. *)
Lemma split_three t0 t1 t2 :
  char_free backtick t0 = true → char_free backtick t1 = true →
  char_free backtick t2 = true →
  PySub.split "```" (t0 +:+ "```" +:+ t1 +:+ "```" +:+ t2) = [t0; t1; t2].
Proof.
  intros H0 H1 H2. unfold PySub.split.
  rewrite (split_from_free "``" t0) by done.
  rewrite (split_from_sep backtick "``").
  rewrite (split_from_free "``" t1) by done.
  rewrite (split_from_sep backtick "``").
  rewrite (split_from_free_only "``" t2) by done.
  by rewrite !append_nil_r.
Qed.

Local Ltac eqb_consts :=
  repeat match goal with
         | |- context [Ascii.eqb ?a ?b] =>
             tryif is_var b then fail else
               (let v := eval vm_compute in (Ascii.eqb a b) in
                change (Ascii.eqb a b) with v)
         end.

Lemma startswith_free t p :
  char_free backtick t = true → PyStr.startswith t (String backtick p) = false.
Proof.
  intros Ht. destruct t as [|c t]; [done|].
  apply char_free_cons in Ht as [Hc _].
  by rewrite startswith_cons, Ascii.eqb_sym, Hc.
Qed.

(** A prefix without backtick is not changed by what follows a
    backtick. *)
Lemma startswith_before_backtick b x p :
  char_free backtick p = true →
  PyStr.startswith (b +:+ String backtick x) p = PyStr.startswith b p.
Proof.
  revert b. induction p as [|a p IH]; intros b Hp; [done|].
  apply char_free_cons in Hp as [Ha Hp].
  destruct b as [|c b].
  - change ("" +:+ String backtick x) with (String backtick x).
    by rewrite startswith_cons, Ha.
  - change (String c b +:+ String backtick x) with (String c (b +:+ String backtick x)).
    rewrite !startswith_cons, IH by done. done.
Qed.

Lemma contains_free sep t s :
  char_free backtick t = true →
  PySub.contains (String backtick sep) (t +:+ s)
  = PySub.contains (String backtick sep) s.
Proof.
  intros Ht. induction t as [|c t IH]; [done|].
  pose proof Ht as [Hc Ht']%char_free_cons.
  change (String c t +:+ s) with (String c (t +:+ s)).
  by rewrite contains_unfold, startswith_cons, Ascii.eqb_sym, Hc, (IH Ht').
Qed.

Lemma contains_free_only sep t :
  char_free backtick t = true → PySub.contains (String backtick sep) t = false.
Proof.
  intros Ht. induction t as [|c t IH]; [done|].
  pose proof Ht as [Hc Ht']%char_free_cons.
  by rewrite contains_unfold, startswith_cons, Ascii.eqb_sym, Hc, (IH Ht').
Qed.

(** After a fence that is followed by no [json]. *)
Lemma contains_json_after_fence X :
  PyStr.startswith X "json" = false →
  PyStr.startswith X "`json" = false →
  PyStr.startswith X "``json" = false →
  PySub.contains "```json" ("```" +:+ X) = PySub.contains "```json" X.
Proof.
  intros H0 H1 H2.
  change ("```" +:+ X) with (String backtick (String backtick (String backtick X))).
  rewrite 3!contains_unfold, !startswith_cons. eqb_consts.
  by rewrite H0, H1, H2.
Qed.

Lemma split_json_after_fence post :
  char_free backtick post = true → PyStr.startswith post "json" = false →
  PySub.split_from "```json" 0 ("```" +:+ post) = ["```" +:+ post].
Proof.
  intros Hp Hj.
  change ("```" +:+ post) with (String backtick (String backtick (String backtick post))).
  rewrite 3!split_from_0, !startswith_cons. eqb_consts. cbn [andb].
  rewrite Hj, (startswith_free post "json"), (startswith_free post "`json") by done.
  by rewrite (split_from_free_only "``json" post).
Qed.

Lemma startswith_slice s p :
  PyStr.startswith s p = true → s = p +:+ PyStr.slice_from (String.length p) s.
Proof.
  revert s. induction p as [|a p IH]; intros s; [by destruct s|].
  destruct s as [|b s]; [done|]. rewrite startswith_cons.
  intros [Hab H]%andb_prop. apply Ascii.eqb_eq in Hab as ->.
  change (String b s = String b (p +:+ PyStr.slice_from (String.length p) s)).
  by rewrite <- (IH s H).
Qed.

(** X12: an answer with one fenced block, [```] or [```json], and no other
    backtick: the block is what is handed to the JSON decoder. *)
Theorem clean_markdown_takes_the_block pre body post :
  char_free backtick pre = true → char_free backtick body = true →
  char_free backtick post = true → PyStr.startswith post "json" = false →
  clean_markdown (pre +:+ "```" +:+ body +:+ "```" +:+ post)
  = Ok (if PyStr.startswith body "json" then PyStr.slice_from 4 body else body).
Proof.
  intros Hpre Hbody Hpost Hj. unfold clean_markdown.
  destruct (PyStr.startswith body "json") eqn:Hb.
  - pose proof (startswith_slice _ _ Hb) as Hd. simpl String.length in Hd.
    remember (PyStr.slice_from 4 body) as b' eqn:Heq. clear Heq. subst body.
    assert (char_free backtick b' = true) as Hb' by exact Hbody.
    change (pre +:+ "```" +:+ ("json" +:+ b') +:+ "```" +:+ post)
      with (pre +:+ "```json" +:+ b' +:+ "```" +:+ post).
    rewrite contains_app. unfold PySub.split.
    rewrite (split_from_free "``json" pre) by done.
    rewrite (split_from_sep backtick "``json").
    rewrite (split_from_free "``json" b') by done.
    rewrite split_json_after_fence by done.
    unfold PySub.item at 1. simpl lookup. cbn [bind]. unfold PySub.item.
    rewrite (split_from_free "``" b') by done.
    rewrite (split_from_sep backtick "``").
    by rewrite append_nil_r.
  - assert (PySub.contains "```json" (pre +:+ "```" +:+ body +:+ "```" +:+ post) = false)
      as ->.
    { rewrite (contains_free "``json" pre) by done.
      rewrite contains_json_after_fence.
      - rewrite (contains_free "``json" body) by done.
        rewrite contains_json_after_fence;
          [by apply (contains_free_only "``json")|done|..];
          by apply startswith_free.
      - change ("```" +:+ post) with (String backtick ("``" +:+ post)).
        by rewrite startswith_before_backtick.
      - destruct body as [|c body]; [done|].
        by apply (startswith_free_head (String c body)).
      - destruct body as [|c body]; [done|].
        by apply (startswith_free_head (String c body)). }
    rewrite (contains_app "```" pre).
    rewrite split_three by done.
    unfold PySub.item at 1. simpl lookup. cbn [bind].
    unfold PySub.item, PySub.split. by rewrite (split_from_free_only "``" body).
Qed.

Lemma clean_markdown_takes_the_block_witness :
  clean_markdown ("Here are the findings: " +:+ "```" +:+ "json [1, 2] " +:+ "```"
                  +:+ " Hope this helps.")
  = Ok " [1, 2] ".
Proof.
  apply (clean_markdown_takes_the_block "Here are the findings: " "json [1, 2] "
           " Hope this helps."); reflexivity.
Defined.
End CleanMarkdown.

(** ** The answer of the model: from JSON to comments *)

Section ReadAnswer.
Import Analyze.

Lemma append_comment_object category comments items :
  append_comment category comments (JDict items)
  = Ok (comments ++ [comment_of_object category items]).
Proof. done. Qed.

Lemma append_comment_other category comments c :
  is_object c = false →
  append_comment category comments c = Raise (OtherException "AttributeError").
Proof. by destruct c. Qed.

(** The loop over objects only. *)
Lemma for_each_objects category dicts comments :
  for_each (append_comment category) (map JDict dicts) comments
  = Ok (comments ++ map (comment_of_object category) dicts).
Proof.
  revert comments. induction dicts as [|d dicts IH]; intros comments; simpl.
  - by rewrite app_nil_r.
  - rewrite IH. by rewrite <- app_assoc.
Qed.

(** The loop over a list with an element that is no object. *)
Lemma for_each_not_object category l comments :
  forallb is_object l = false →
  for_each (append_comment category) l comments
  = Raise (OtherException "AttributeError").
Proof.
  revert comments. induction l as [|c l IH]; intros comments; [done|].
  simpl. destruct c; try done. simpl. apply IH.
Qed.

Lemma for_each_category category l comments comments' :
  for_each (append_comment category) l comments = Ok comments' →
  Forall (λ c, raw_category c = category) comments →
  Forall (λ c, raw_category c = category) comments'.
Proof.
  revert comments. induction l as [|c l IH]; intros comments; simpl.
  - by intros [= <-].
  - destruct c; try done. simpl. intros H Hall. apply (IH _ H).
    apply Forall_app. split; [done|]. by repeat constructor.
Qed.

(** X13: whatever the model answers, every comment that [analyze] returns
    carries the category of the agent, not one from the answer. *)
Theorem answer_category_is_the_agents category response loads comments :
  read_answer category response loads = Ok comments →
  Forall (λ c, raw_category c = category) comments.
Proof.
  unfold read_answer.
  destruct (try_block category response loads) as [cs|e] eqn:Htry.
  - intros [= <-]. unfold try_block in Htry.
    destruct response as [content|]; simpl in Htry; [|done].
    destruct (clean_markdown content) as [cleaned|]; simpl in Htry; [|done].
    destruct (loads (PyStr.strip cleaned)) as [data|]; simpl in Htry; [|done].
    destruct (iterate data) as [items|]; simpl in Htry; [|done].
    by eapply for_each_category.
  - destruct (Agents.is_Exception e); [|done]. by intros [= <-].
Qed.

Lemma answer_category_is_the_agents_witness :
  Forall (λ c, raw_category c = "security")
    [comment_of_object "security"
       [("file", JStr "a.py"); ("category", JStr "style")]].
Proof.
  apply (answer_category_is_the_agents "security" (Ok "[...]")
           (λ _, Ok (JList [JDict [("file", JStr "a.py"); ("category", JStr "style")]]))).
  vm_compute. reflexivity.
Defined.

(** X14: an answer that decodes to a list of objects gives one comment for
    each object, in the order of the list, with the entries of the object
    and the defaults [unknown], [0], [low] and the empty string for the
    entries it lacks. *)
Theorem answer_of_objects category content cleaned loads dicts :
  clean_markdown content = Ok cleaned →
  loads (PyStr.strip cleaned) = Ok (JList (map JDict dicts)) →
  read_answer category (Ok content) loads
  = Ok (map (comment_of_object category) dicts).
Proof.
  intros Hc Hl. unfold read_answer, try_block. simpl. rewrite Hc. simpl.
  rewrite Hl. simpl. by rewrite for_each_objects.
Qed.

Lemma answer_of_objects_witness :
  read_answer "logic" (Ok "```json [...] ```")
    (λ _, Ok (JList (map JDict [[("line", JInt 7)]; []])))
  = Ok [ mkRawComment (JStr "unknown") (JInt 7) (JStr "low") "logic" (JStr "") (JStr "");
         mkRawComment (JStr "unknown") (JInt 0) (JStr "low") "logic" (JStr "") (JStr "") ].
Proof.
  apply (answer_of_objects "logic" "```json [...] ```" " [...] "
           (λ _, Ok (JList (map JDict [[("line", JInt 7)]; []])))
           [[("line", JInt 7)]; []]); reflexivity.
Defined.

(** X15: one element of the list that is no object, and [analyze] returns
    the empty list: the comments of the objects before it are lost with
    it. *)
Theorem answer_with_a_bad_element_is_empty category content cleaned loads l :
  clean_markdown content = Ok cleaned →
  loads (PyStr.strip cleaned) = Ok (JList l) →
  forallb is_object l = false →
  read_answer category (Ok content) loads = Ok [].
Proof.
  intros Hc Hl Hbad. unfold read_answer, try_block. simpl. rewrite Hc. simpl.
  rewrite Hl. simpl. by rewrite for_each_not_object.
Qed.

Lemma answer_with_a_bad_element_is_empty_witness :
  read_answer "logic" (Ok "[...]")
    (λ _, Ok (JList [JDict [("file", JStr "a.py")]; JStr "and so on"]))
  = Ok [].
Proof.
  apply (answer_with_a_bad_element_is_empty "logic" "[...]" "[...]"
           (λ _, Ok (JList [JDict [("file", JStr "a.py")]; JStr "and so on"]))
           [JDict [("file", JStr "a.py")]; JStr "and so on"]); reflexivity.
Defined.

End ReadAnswer.

(** * More properties of the orchestrator *)

Section FirstByMore.
Context {K : Type} `{EqDecision K} (key : Comment → K).

(** A list without two comments of one key, none of them seen, is kept
    whole. *)
Lemma first_by_NoDup_id seen l :
  NoDup (key <$> l) → (∀ c, c ∈ l → key c ∉ seen) → first_by key seen l = l.
Proof.
  revert seen. induction l as [|c l IH]; intros seen Hnd Hseen; [done|].
  simpl. rewrite fmap_cons in Hnd. apply NoDup_cons in Hnd as [Hc Hnd].
  rewrite decide_False by (apply Hseen, list_elem_of_here).
  f_equal. apply IH; [done|]. intros c' Hc'. apply not_elem_of_cons. split.
  - intros Heq. apply Hc. rewrite <- Heq. by apply list_elem_of_fmap_2.
  - apply Hseen. by apply list_elem_of_further.
Qed.

(** Every comment of the list has its key among those seen or among
    those kept. *)
Lemma first_by_covers seen l c :
  c ∈ l → key c ∈ seen ∨ ∃ c', c' ∈ first_by key seen l ∧ key c' = key c.
Proof.
  revert seen. induction l as [|c0 l IH]; intros seen Hc; [by apply elem_of_nil in Hc|].
  simpl. apply elem_of_cons in Hc as [->|Hc].
  - destruct (decide (key c0 ∈ seen)); [by left|].
    right. exists c0. split; [apply list_elem_of_here|done].
  - destruct (decide (key c0 ∈ seen)); [by apply IH|].
    destruct (IH (key c0 :: seen) Hc) as [Hin|(c' & Hc' & Heq)].
    + apply elem_of_cons in Hin as [Heq|Hin]; [|by left].
      right. exists c0. split; [apply list_elem_of_here|done].
    + right. exists c'. split; [by apply list_elem_of_further|done].
Qed.

End FirstByMore.

Section SortMore.
Import Agents.
Context {A : Type} (key : A → Z).

(** Sorting a sorted list changes nothing. *)
Lemma sort_by_sorted_id l : StronglySorted (key_le key) l → sort_by key l = l.
Proof.
  induction 1 as [|x l Hl IH Hx]; [done|]. simpl. fold (sort_by key l).
  rewrite IH. destruct l as [|y l]; [done|]. simpl.
  apply Forall_cons in Hx as [Hxy _]. unfold key_le in Hxy.
  by rewrite (proj2 (Z.leb_le _ _) Hxy).
Qed.

End SortMore.

Section ReviewMore.
Import Agents.

Lemma merge_single l : merge [l] = first_by dedup_key [] l.
Proof. rewrite merge_first_by_key. simpl. by rewrite app_nil_r. Qed.

(** X16: the merge step and the whole of [review] are idempotent: on the
    list that it has returned, as the comments of one agent, [review]
    returns that list again. *)
Theorem review_is_idempotent results :
  merge [merge results] = merge results ∧
  review_results [review_results results] = review_results results.
Proof.
  assert (∀ l, NoDup (dedup_key <$> l) → merge [l] = l) as Hid.
  { intros l Hnd. rewrite merge_single. apply first_by_NoDup_id; [done|].
    intros c _. apply not_elem_of_nil. }
  assert (NoDup (dedup_key <$> merge results)) as Hnd.
  { rewrite merge_first_by_key. apply first_by_NoDup. }
  split; [by apply Hid|].
  unfold review_results at 1. rewrite Hid.
  - apply sort_by_sorted_id. apply sort_by_sorted.
  - unfold review_results. by rewrite sort_by_perm.
Qed.

(** X17: what [review] returns, when all agents return: comments of the
    agents only, no two with the same key, and for every comment of an
    agent one with its key; so no finding is dropped but as a duplicate
    and none is made up. *)
Theorem review_keeps_one_comment_per_key results :
  (∀ c, c ∈ review_results results → c ∈ concat results) ∧
  NoDup (dedup_key <$> review_results results) ∧
  (∀ c, c ∈ concat results →
        ∃ c', c' ∈ review_results results ∧ dedup_key c' = dedup_key c) ∧
  (length (review_results results) ≤ length (concat results))%nat.
Proof.
  assert (review_results results ≡ₚ first_by dedup_key [] (concat results)) as Hperm.
  { unfold review_results. rewrite sort_by_perm. by rewrite merge_first_by_key. }
  pose proof (first_by_sublist dedup_key [] (concat results)) as Hsub.
  repeat split.
  - intros c Hc. rewrite Hperm in Hc. by eapply elem_of_sublist.
  - rewrite Hperm. apply first_by_NoDup.
  - intros c Hc.
    destruct (first_by_covers dedup_key [] _ _ Hc) as [Hin|(c' & Hc' & Heq)];
      [by apply elem_of_nil in Hin|].
    exists c'. split; [by rewrite Hperm|done].
  - rewrite Hperm. by apply sublist_length.
Qed.

End ReviewMore.

(** * The summary of a response *)

Section Summary.
Import Main.

Lemma count_three comments :
  (count_severity "high" comments + count_severity "medium" comments
   + count_severity "low" comments
   + length (filter (λ c, ¬ (severity c = "high" ∨ severity c = "medium"
                              ∨ severity c = "low")) comments)
   = length comments)%nat.
Proof.
  unfold count_severity. induction comments as [|c cs IH]; [done|].
  rewrite !filter_cons. simpl length.
  repeat case_decide; simpl length; try lia; exfalso;
    try congruence; tauto.
Qed.

(** X18: the three counts of the summary never add up to more than the
    total, and they add up to it when every comment has one of the three
    severities, which is what the response model admits. *)
Theorem summary_counts comments :
  (high (summary comments) + medium (summary comments) + low (summary comments)
   ≤ total_comments (summary comments))%nat ∧
  (Forall (λ c, severity c = "high" ∨ severity c = "medium" ∨ severity c = "low")
     comments →
   (high (summary comments) + medium (summary comments) + low (summary comments)
    = total_comments (summary comments))%nat).
Proof.
  unfold summary. simpl. split.
  { pose proof (count_three comments). lia. }
  intros Hall.
  assert (filter (λ c, ¬ (severity c = "high" ∨ severity c = "medium"
                           ∨ severity c = "low")) comments = []) as Hnone.
  { induction Hall as [|c cs Hc _ IH]; [done|].
    rewrite filter_cons_False; [exact IH|]. intros Hn. by apply Hn. }
  pose proof (count_three comments) as H. rewrite Hnone in H. simpl in H. lia.
Qed.

Lemma summary_counts_witness :
  summary [sev 1 "low"; sev 2 "high"; sev 3 "medium"; sev 4 "high"]
  = {| total_comments := 4; high := 2; medium := 1; low := 1 |} ∧
  (high (summary [sev 1 "low"; sev 2 "high"; sev 3 "medium"; sev 4 "high"])
   + medium (summary [sev 1 "low"; sev 2 "high"; sev 3 "medium"; sev 4 "high"])
   + low (summary [sev 1 "low"; sev 2 "high"; sev 3 "medium"; sev 4 "high"])
   = total_comments (summary [sev 1 "low"; sev 2 "high"; sev 3 "medium"; sev 4 "high"]))%nat.
Proof.
  split; [reflexivity|].
  apply (summary_counts [sev 1 "low"; sev 2 "high"; sev 3 "medium"; sev 4 "high"]).
  repeat (apply List.Forall_cons; [simpl; auto|]). apply List.Forall_nil.
Defined.

End Summary.
